(** * Authentication core of the server template

    A shallow embedding of [template/server/src/modules/auth/auth.service.ts],
    [auth.repo.ts], [session.repo.ts], [libs/password.ts] and [libs/auth.ts],
    together with the properties of the credential and session lifecycle:
    progressive lockout, password verification with rehash-on-login,
    refresh-token rotation, best-effort logout and registration.

    The persistent store, the clock, the random source and the hashing
    libraries are collaborators of the code.  The store is a record of three
    tables; every awaited store call is a point where other requests may
    have changed the tables or where the store may be unreachable, which is
    made explicit by a schedule carried in the world. *)

From Stdlib Require Import ZArith Lia Ascii String.
From stdpp Require Import base strings pretty gmap list sorting.

Local Open Scope string_scope.
Local Open Scope Z_scope.

(** ** Errors ([shared/errors/AppError.ts], [shared/errors/errors.ts]) *)

(** A thrown JavaScript value.  [AppError] is the class of the same name with
    its [name], [code], [message] and [statusCode]; [PrismaKnownError] is the
    store client's request error, which carries a [code] such as [P2025]
    (record not found) or [P2002] (unique constraint); [JsError] is a plain
    [Error] without a [code] property. *)
Inductive Error : Type :=
| AppError (name code message : string) (statusCode : Z)
| PrismaKnownError (code : string)
| JsError (message : string).

(** ['code' in error] and [error.code]. *)
Definition error_code (e : Error) : option string :=
  match e with
  | AppError _ code _ _ => Some code
  | PrismaKnownError code => Some code
  | JsError _ => None
  end.

Definition error_message (e : Error) : option string :=
  match e with
  | AppError _ _ message _ => Some message
  | PrismaKnownError _ => None
  | JsError message => Some message
  end.

Definition UnauthorizedError (message code : string) : Error :=
  AppError "UnauthorizedError" code message 401.

Definition NotFoundError (message code : string) : Error :=
  AppError "NotFoundError" code message 404.

Definition ConflictError (message code : string) : Error :=
  AppError "ConflictError" code message 409.

(** The test of the two [catch] blocks of [auth.repo.ts]:
    [error instanceof Error && 'code' in error && error.code === 'P2025']. *)
Definition isRecordNotFound (e : Error) : bool :=
  bool_decide (error_code e = Some "P2025").

(** ** Lockout policy ([auth.service.ts], lines 14-27) *)

Record Threshold : Type := mkThreshold { attempts : Z; durationMs : Z }.

Definition LOCKOUT_THRESHOLDS : list Threshold :=
  [ mkThreshold 5 (15 * 60 * 1000);
    mkThreshold 10 (30 * 60 * 1000);
    mkThreshold 15 (60 * 60 * 1000) ].

(** The loop [for (i = length - 1; i >= 0; i--)] over a table; [k] is [i + 1],
    so that [k = 0] is the exit of the loop. *)
Fixpoint lockout_loop (table : list Threshold) (failedAttempts : Z) (k : nat)
  : option Z :=
  match k with
  | O => None
  | S i =>
      match table !! i with
      | Some t =>
          if bool_decide (attempts t ≤ failedAttempts)
          then Some (durationMs t)
          else lockout_loop table failedAttempts i
      | None => lockout_loop table failedAttempts i
      end
  end.

Definition getLockoutDuration (failedAttempts : Z) : option Z :=
  lockout_loop LOCKOUT_THRESHOLDS failedAttempts (length LOCKOUT_THRESHOLDS).

(** [null] is below every duration; durations compare as numbers. *)
Definition duration_le (a b : option Z) : Prop :=
  match a, b with
  | None, _ => True
  | Some _, None => False
  | Some x, Some y => x ≤ y
  end.

Definition minutes (n : Z) : Z := n * 60 * 1000.

(** ** Data model *)

Inductive UserRole : Type := USER | ADMIN.

(** Modelled from the spec: the schema file [prisma/schema.prisma] is not
    among the sources; the columns are those of the data model of the
    specification and of the fixtures in [test/setup.ts].  A row of a table
    is its unique key paired with the record of its other columns: users and
    sessions are keyed by [id], refresh tokens by their unique [token]
    string.  Timestamps are milliseconds since the epoch. *)
Record User : Type := mkUser {
  u_email : string;
  u_password : string;
  u_firstName : string;
  u_lastName : string;
  u_avatarUrl : option string;
  u_role : UserRole;
  u_isActive : bool;
  u_deletedAt : option Z;
  u_failedLoginAttempts : Z;
  u_lockedUntil : option Z;
  u_createdAt : Z;
  u_updatedAt : Z
}.

(** Modelled from the spec: the columns of a refresh token of the data
    model (unique token string, owning user, expiry and creation times), the
    token string being the key of the table. *)
Record RefreshToken : Type := mkRefreshToken {
  rt_id : string;
  rt_userId : string;
  rt_expiresAt : Z;
  rt_createdAt : Z
}.

(** Modelled from the spec: the columns of a session of the data model
    (owning user, optional device and address, last activity, expiry and
    creation times), the [id] being the key of the table. *)
Record Session : Type := mkSession {
  s_userId : string;
  s_deviceInfo : option string;
  s_ipAddress : option string;
  s_lastActiveAt : Z;
  s_expiresAt : Z;
  s_createdAt : Z
}.

(** Everything a request can read or change: the three tables, the wall
    clock read by [new Date()] and [Date.now()], the position in the stream
    of random identifiers, and the module variable [app] of [libs/auth.ts]
    ([true] once [initAuth] has run). *)
Record State : Type := mkState {
  users : gmap string User;
  refreshTokens : gmap string RefreshToken;
  sessions : gmap string Session;
  clock : Z;
  entropy : nat;
  app : bool
}.

Definition with_users (f : gmap string User → gmap string User) (s : State) : State :=
  mkState (f (users s)) (refreshTokens s) (sessions s) (clock s) (entropy s) (app s).

Definition with_refreshTokens
  (f : gmap string RefreshToken → gmap string RefreshToken) (s : State) : State :=
  mkState (users s) (f (refreshTokens s)) (sessions s) (clock s) (entropy s) (app s).

Definition with_sessions (f : gmap string Session → gmap string Session) (s : State) : State :=
  mkState (users s) (refreshTokens s) (f (sessions s)) (clock s) (entropy s) (app s).

Definition next_entropy (s : State) : State :=
  mkState (users s) (refreshTokens s) (sessions s) (clock s) (S (entropy s)) (app s).

(** ** The monad of asynchronous functions *)

Inductive Result (A : Type) : Type :=
| Ok (a : A)
| Throw (e : Error).

Arguments Ok {A} a.
Arguments Throw {A} e.

(** What happens while a store call is awaited: other requests change the
    state ([interfere]), and the call may fail for lack of a connection
    ([fault], the message of an error that has no [P2025] code). *)
Record EnvStep : Type := mkEnvStep {
  interfere : State → State;
  fault : option string
}.

(** A world is a state and the steps of the environment still to come, one
    for each store call; when the schedule is exhausted the request runs
    alone on a reachable store. *)
Record World : Type := mkWorld {
  st : State;
  sched : list EnvStep
}.

Definition M (A : Type) : Type := World → Result A * World.

Definition ret {A : Type} (a : A) : M A := fun w => (Ok a, w).

Definition throw {A : Type} (e : Error) : M A := fun w => (Throw e, w).

Definition bind {A B : Type} (m : M A) (k : A → M B) : M B :=
  fun w =>
    match m w with
    | (Ok a, w') => k a w'
    | (Throw e, w') => (Throw e, w')
    end.

(** [try { m } catch (error) { handler }] *)
Definition tryCatch {A : Type} (m : M A) (handler : Error → M A) : M A :=
  fun w =>
    match m w with
    | (Ok a, w') => (Ok a, w')
    | (Throw e, w') => handler e w'
    end.

Declare Scope async_scope.
Delimit Scope async_scope with async.
Notation "x <- c1 ;; c2" := (bind c1 (fun x => c2))
  (at level 100, c1 at next level, right associativity) : async_scope.
Notation "c1 ;; c2" := (bind c1 (fun _ => c2))
  (at level 100, right associativity) : async_scope.
Local Open Scope async_scope.

(** A query is what the store does with one call. *)
Definition Query (A : Type) : Type := State → Result A * State.

(** The state in which the next store call is evaluated, if it is. *)
Definition arrive (w : World) : option World :=
  match sched w with
  | [] => Some w
  | e :: rest =>
      match fault e with
      | Some _ => None
      | None => Some (mkWorld (interfere e (st w)) rest)
      end
  end.

(** [await prisma.<query>]: the environment takes its step, then the query
    runs on the state it left. *)
Definition prisma {A : Type} (q : Query A) : M A :=
  fun w =>
    match sched w with
    | [] => let '(r, s) := q (st w) in (r, mkWorld s [])
    | e :: rest =>
        let s1 := interfere e (st w) in
        match fault e with
        | Some msg => (Throw (JsError msg), mkWorld s1 rest)
        | None => let '(r, s) := q s1 in (r, mkWorld s rest)
        end
    end.

(** [prisma.$transaction([q1, q2])]: both queries or neither. *)
Definition transaction {A B : Type} (q1 : Query A) (q2 : Query B) : Query (A * B) :=
  fun s =>
    match q1 s with
    | (Throw e, _) => (Throw e, s)
    | (Ok a, s1) =>
        match q2 s1 with
        | (Throw e, _) => (Throw e, s)
        | (Ok b, s2) => (Ok (a, b), s2)
        end
    end.

(** [Date.now()] and [new Date()] *)
Definition Date_now : M Z := fun w => (Ok (clock (st w)), w).

(** ** Collaborators *)

Record Argon2Options : Type := mkArgon2Options {
  type : string;
  memoryCost : Z;
  timeCost : Z;
  parallelism : Z
}.

Record Env : Type := mkEnv {
  JWT_ACCESS_EXPIRY : string;
  JWT_REFRESH_EXPIRY : string
}.

(** The libraries and the runtime the code calls into.  [uuidv4 n] is the
    [n]-th identifier the random source hands out; [argon2_hash] takes the
    options, the password and the salt drawn for it; the comparators are
    taken as total boolean functions. *)
Class Runtime : Type := {
  uuidv4 : nat → string;
  argon2_hash : Argon2Options → string → nat → string;
  argon2_verify : string → string → bool;
  bcrypt_compare : string → string → bool;
  jwt_sign : string → UserRole → string → string;
  toISOString : Z → string;
  env : Env
}.

(** ** [libs/password.ts] *)

Section password.
Context `{!Runtime}.

(** OWASP recommended argon2id configuration *)
Definition ARGON2_OPTIONS : Argon2Options :=
  mkArgon2Options "argon2id" 65536 3 4.

(** [argon2.hash(password, ARGON2_OPTIONS)]; the salt is drawn from the
    random source. *)
Definition hashPassword (password : string) : M string :=
  fun w =>
    (Ok (argon2_hash ARGON2_OPTIONS password (entropy (st w))),
     mkWorld (next_entropy (st w)) (sched w)).

(** [s.startsWith(prefix)] *)
Definition startsWith (s prefix : string) : bool := String.prefix prefix s.

Record VerifyResult : Type := mkVerifyResult {
  valid : bool;
  needsRehash : bool
}.

Definition isBcryptHash (hash : string) : bool :=
  startsWith hash "$2a$" || startsWith hash "$2b$" || startsWith hash "$2y$".

Definition verifyPassword (password hash : string) : VerifyResult :=
  if isBcryptHash hash then
    let valid := bcrypt_compare password hash in
    mkVerifyResult valid valid
  else
    let valid := argon2_verify hash password in
    mkVerifyResult valid false.
End password.

(** ** [libs/auth.ts] *)

Section auth_lib.
Context `{!Runtime}.

(** [getApp().jwt.sign({ userId, role }, { expiresIn })]; [getApp] throws
    while [app] is [null]. *)
Definition signAccessToken (userId : string) (role : UserRole) : M string :=
  fun w =>
    if app (st w)
    then (Ok (jwt_sign userId role (JWT_ACCESS_EXPIRY env)), w)
    else (Throw (JsError
            "Auth not initialized. Call initAuth(fastify) before using auth helpers."),
          w).

Definition generateRefreshToken : M string :=
  fun w => (Ok (uuidv4 (entropy (st w))), mkWorld (next_entropy (st w)) (sched w)).

Definition isDigit (c : ascii) : bool :=
  let n := Z.of_nat (nat_of_ascii c) in
  bool_decide (48 ≤ n) && bool_decide (n ≤ 57).

(** The greedy match of [\d+]: the value read so far, the number of digits
    read, and what follows them. *)
Fixpoint span_digits (s : string) (value : Z) (read : nat) : Z * nat * string :=
  match s with
  | String c s' =>
      if isDigit c
      then span_digits s' (10 * value + (Z.of_nat (nat_of_ascii c) - 48)) (S read)
      else (value, read, s)
  | EmptyString => (value, read, s)
  end.

Definition multipliers (unit : ascii) : option Z :=
  if bool_decide (unit = "s"%char) then Some 1000
  else if bool_decide (unit = "m"%char) then Some (60 * 1000)
  else if bool_decide (unit = "h"%char) then Some (60 * 60 * 1000)
  else if bool_decide (unit = "d"%char) then Some (24 * 60 * 60 * 1000)
  else None.

(** [duration.match(/^(\d+)([smhd])$/)] *)
Definition parseDurationMs (duration : string) (fallbackMs : Z) : Z :=
  match span_digits duration 0 0 with
  | (value, S _, String unit EmptyString) =>
      match multipliers unit with
      | Some m => value * m
      | None => fallbackMs
      end
  | _ => fallbackMs
  end.

Definition getRefreshTokenExpiresAt : M Z :=
  let ms := parseDurationMs (JWT_REFRESH_EXPIRY env) (7 * 24 * 60 * 60 * 1000) in
  now <- Date_now ;;
  ret (now + ms).
End auth_lib.

(** ** The store client

    The store is a collaborator of the code, known to it through the client
    generated from the schema.  A [findUnique] returns the row or [null];
    [delete] and [update] of a row that is not there fail with [P2025], the
    code the two [catch] blocks of [auth.repo.ts] test for; [create] fails
    with [P2002] when a unique column is taken.  Referential constraints are
    not modelled. *)
Module Prisma.
Section queries.
Context `{!Runtime}.

Definition findFirst {A : Type} (p : string * A → bool) (table : gmap string A)
  : option (string * A) :=
  List.find p (map_to_list table).

(** [where: { email, deletedAt: null }] *)
Definition where_email (email : string) (row : string * User) : bool :=
  bool_decide (u_email row.2 = email) && bool_decide (u_deletedAt row.2 = None).

Definition user_findUnique_email (email : string) : Query (option (string * User)) :=
  fun s => (Ok (findFirst (where_email email) (users s)), s).

(** [where: { id, deletedAt: null }] *)
Definition where_id (id : string) (table : gmap string User) : option (string * User) :=
  match table !! id with
  | Some u => if bool_decide (u_deletedAt u = None) then Some (id, u) else None
  | None => None
  end.

Definition user_findUnique_id (id : string) : Query (option (string * User)) :=
  fun s => (Ok (where_id id (users s)), s).

(** Modelled from the spec: the schema is not among the sources; a new user
    has a fresh [id], role [USER], is active, not deleted, has no failed
    attempts and no lock, and [id] and [email] are unique. *)
Definition user_create (email password firstName lastName : string)
  : Query (string * User) :=
  fun s =>
    let id := uuidv4 (entropy s) in
    let taken :=
      bool_decide (is_Some (users s !! id))
      || bool_decide (is_Some (findFirst (fun row => bool_decide (u_email row.2 = email))
                                 (users s))) in
    if taken then (Throw (PrismaKnownError "P2002"), s)
    else
      let u := mkUser email password firstName lastName None USER true None 0 None
                 (clock s) (clock s) in
      (Ok (id, u), with_users (insert id u) (next_entropy s)).

(** Modelled from the spec: the schema is not among the sources; the column
    [updatedAt] of the data model is set by the store on every update. *)
Definition stamp (now : Z) (u : User) : User :=
  mkUser (u_email u) (u_password u) (u_firstName u) (u_lastName u)
    (u_avatarUrl u) (u_role u) (u_isActive u) (u_deletedAt u)
    (u_failedLoginAttempts u) (u_lockedUntil u) (u_createdAt u) now.

(** [prisma.user.update({ where: { id }, data })]; [data] is the change of
    the columns. *)
Definition user_update (id : string) (data : User → User) : Query unit :=
  fun s =>
    match users s !! id with
    | Some u => (Ok tt, with_users (insert id (stamp (clock s) (data u))) s)
    | None => (Throw (PrismaKnownError "P2025"), s)
    end.

(** Modelled from the spec: the schema is not among the sources; a new
    refresh token has a fresh [id] and is created now, and [token] is
    unique. *)
Definition refreshToken_create (token userId : string) (expiresAt : Z)
  : Query RefreshToken :=
  fun s =>
    match refreshTokens s !! token with
    | Some _ => (Throw (PrismaKnownError "P2002"), s)
    | None =>
        let row := mkRefreshToken (uuidv4 (entropy s)) userId expiresAt (clock s) in
        (Ok row, with_refreshTokens (insert token row) (next_entropy s))
    end.

Definition refreshToken_findUnique (token : string) : Query (option RefreshToken) :=
  fun s => (Ok (refreshTokens s !! token), s).

Definition refreshToken_delete (token : string) : Query RefreshToken :=
  fun s =>
    match refreshTokens s !! token with
    | Some row => (Ok row, with_refreshTokens (delete token) s)
    | None => (Throw (PrismaKnownError "P2025"), s)
    end.

Definition refreshToken_deleteMany (userId : string) : Query nat :=
  fun s =>
    let doomed := filter (fun kv : string * RefreshToken => rt_userId kv.2 = userId)
                    (refreshTokens s) in
    (Ok (size doomed),
     with_refreshTokens (filter (fun kv => rt_userId kv.2 ≠ userId)) s).

(** Modelled from the spec: the schema is not among the sources; a new
    session has a fresh unique [id], is created now and was last active
    now. *)
Definition session_create (userId : string) (deviceInfo ipAddress : option string)
    (expiresAt : Z) : Query (string * Session) :=
  fun s =>
    let id := uuidv4 (entropy s) in
    match sessions s !! id with
    | Some _ => (Throw (PrismaKnownError "P2002"), s)
    | None =>
        let row := mkSession userId deviceInfo ipAddress (clock s) expiresAt (clock s) in
        (Ok (id, row), with_sessions (insert id row) (next_entropy s))
    end.

(** [orderBy: { lastActiveAt: 'desc' }] *)
Definition by_lastActiveAt_desc (a b : string * Session) : Prop :=
  s_lastActiveAt b.2 ≤ s_lastActiveAt a.2.

#[global] Instance by_lastActiveAt_desc_dec a b : Decision (by_lastActiveAt_desc a b) :=
  Z_le_dec (s_lastActiveAt b.2) (s_lastActiveAt a.2).

(** [findMany({ where: { userId, expiresAt: { gt: now } }, orderBy })] *)
Definition activeSessions (userId : string) (now : Z) (table : gmap string Session)
  : list (string * Session) :=
  merge_sort by_lastActiveAt_desc
    (filter (fun row : string * Session =>
               s_userId row.2 = userId ∧ now < s_expiresAt row.2)
            (map_to_list table)).

Definition session_findMany (userId : string) (now : Z) : Query (list (string * Session)) :=
  fun s => (Ok (activeSessions userId now (sessions s)), s).

Definition session_delete (id : string) : Query Session :=
  fun s =>
    match sessions s !! id with
    | Some row => (Ok row, with_sessions (delete id) s)
    | None => (Throw (PrismaKnownError "P2025"), s)
    end.

Definition session_deleteMany (userId : string) : Query nat :=
  fun s =>
    let doomed := filter (fun kv : string * Session => s_userId kv.2 = userId)
                    (sessions s) in
    (Ok (size doomed),
     with_sessions (filter (fun kv => s_userId kv.2 ≠ userId)) s).

(** [prisma.session.update({ where: { id }, data })] *)
Definition session_update (id : string) (data : Session → Session)
  : Query (string * Session) :=
  fun s =>
    match sessions s !! id with
    | Some row => (Ok (id, data row), with_sessions (insert id (data row)) s)
    | None => (Throw (PrismaKnownError "P2025"), s)
    end.

(** [prisma.session.deleteMany({ where: { expiresAt: { lt: now } } })] *)
Definition session_deleteMany_expired (now : Z) : Query nat :=
  fun s =>
    let doomed := filter (fun kv : string * Session => s_expiresAt kv.2 < now)
                    (sessions s) in
    (Ok (size doomed),
     with_sessions (filter (fun kv => now ≤ s_expiresAt kv.2)) s).

(** [prisma.refreshToken.deleteMany({ where: { expiresAt: { lt: now } } })] *)
Definition refreshToken_deleteMany_expired (now : Z) : Query nat :=
  fun s =>
    let doomed := filter (fun kv : string * RefreshToken => rt_expiresAt kv.2 < now)
                    (refreshTokens s) in
    (Ok (size doomed),
     with_refreshTokens (filter (fun kv => now ≤ rt_expiresAt kv.2)) s).

(** [prisma.session.findUnique({ where: { id } })] *)
Definition session_findUnique (id : string) : Query (option (string * Session)) :=
  fun s => (Ok (pair id <$> sessions s !! id), s).

(** [prisma.session.count({ where: { userId, expiresAt: { gt: now } } })] *)
Definition session_count (userId : string) (now : Z) : Query nat :=
  fun s =>
    (Ok (length (filter (fun row : string * Session =>
                           s_userId row.2 = userId ∧ now < s_expiresAt row.2)
                        (map_to_list (sessions s)))), s).
End queries.
End Prisma.

(** ** [modules/auth/auth.repo.ts] *)

Definition set_failedLoginAttempts (n : Z) (u : User) : User :=
  mkUser (u_email u) (u_password u) (u_firstName u) (u_lastName u) (u_avatarUrl u)
    (u_role u) (u_isActive u) (u_deletedAt u) n (u_lockedUntil u)
    (u_createdAt u) (u_updatedAt u).

Definition set_lockedUntil (t : option Z) (u : User) : User :=
  mkUser (u_email u) (u_password u) (u_firstName u) (u_lastName u) (u_avatarUrl u)
    (u_role u) (u_isActive u) (u_deletedAt u) (u_failedLoginAttempts u) t
    (u_createdAt u) (u_updatedAt u).

Definition set_password (hash : string) (u : User) : User :=
  mkUser (u_email u) hash (u_firstName u) (u_lastName u) (u_avatarUrl u)
    (u_role u) (u_isActive u) (u_deletedAt u) (u_failedLoginAttempts u) (u_lockedUntil u)
    (u_createdAt u) (u_updatedAt u).

(** The argument [data] of [createRefreshToken] and [newData] of
    [rotateRefreshToken]. *)
Record RefreshTokenData : Type := mkRefreshTokenData {
  d_token : string;
  d_userId : string;
  d_expiresAt : Z
}.

Module authRepo.
Section repo.
Context `{!Runtime}.

Definition findUserByEmail (email : string) : M (option (string * User)) :=
  prisma (Prisma.user_findUnique_email email).

Definition findUserById (id : string) : M (option (string * User)) :=
  prisma (Prisma.user_findUnique_id id).

Definition createUser (email password firstName lastName : string)
  : M (string * User) :=
  prisma (Prisma.user_create email password firstName lastName).

Definition createRefreshToken (data : RefreshTokenData) : M RefreshToken :=
  prisma (Prisma.refreshToken_create (d_token data) (d_userId data) (d_expiresAt data)).

Definition findRefreshToken (token : string) : M (option RefreshToken) :=
  prisma (Prisma.refreshToken_findUnique token).

Definition deleteRefreshToken (token : string) : M unit :=
  tryCatch
    (prisma (Prisma.refreshToken_delete token) ;; ret tt)
    (fun error =>
       (* P2025: Record not found — token was already deleted *)
       if isRecordNotFound error then ret tt else throw error).

Definition rotateRefreshToken (oldToken : string) (newData : RefreshTokenData) : M bool :=
  tryCatch
    (prisma (transaction
               (Prisma.refreshToken_delete oldToken)
               (Prisma.refreshToken_create
                  (d_token newData) (d_userId newData) (d_expiresAt newData))) ;;
     ret true)
    (fun error =>
       (* P2025: Old token not found — already consumed by a concurrent request *)
       if isRecordNotFound error then ret false else throw error).

Definition deleteRefreshTokensByUserId (userId : string) : M nat :=
  prisma (Prisma.refreshToken_deleteMany userId).

Definition incrementFailedAttempts (userId : string) : M unit :=
  prisma (Prisma.user_update userId
            (fun u => set_failedLoginAttempts (u_failedLoginAttempts u + 1) u)).

Definition setAccountLock (userId : string) (lockedUntil : Z) : M unit :=
  prisma (Prisma.user_update userId (set_lockedUntil (Some lockedUntil))).

Definition resetFailedAttempts (userId : string) : M unit :=
  prisma (Prisma.user_update userId
            (fun u => set_lockedUntil None (set_failedLoginAttempts 0 u))).

Definition updateUserPassword (userId hashedPassword : string) : M unit :=
  prisma (Prisma.user_update userId (set_password hashedPassword)).
End repo.
End authRepo.

(** ** [modules/auth/session.repo.ts] *)

Module sessionRepository.
Section repo.
Context `{!Runtime}.

Definition createSession (userId : string) (deviceInfo ipAddress : option string)
    (expiresAt : Z) : M (string * Session) :=
  prisma (Prisma.session_create userId deviceInfo ipAddress expiresAt).

(** Get all active sessions for a user *)
Definition getUserSessions (userId : string) : M (list (string * Session)) :=
  now <- Date_now ;;
  prisma (Prisma.session_findMany userId now).

Definition deleteSession (sessionId : string) : M unit :=
  prisma (Prisma.session_delete sessionId) ;; ret tt.

Definition deleteAllUserSessions (userId : string) : M nat :=
  prisma (Prisma.session_deleteMany userId).

(** Update session last active timestamp *)
Definition updateLastActive (sessionId : string) : M (string * Session) :=
  now <- Date_now ;;
  prisma (Prisma.session_update sessionId
            (fun row => mkSession (s_userId row) (s_deviceInfo row) (s_ipAddress row)
                          now (s_expiresAt row) (s_createdAt row))).

(** Delete expired sessions (for cleanup cron job) *)
Definition deleteExpiredSessions : M nat :=
  now <- Date_now ;;
  prisma (Prisma.session_deleteMany_expired now).

(** Get session by ID *)
Definition getSessionById (sessionId : string) : M (option (string * Session)) :=
  prisma (Prisma.session_findUnique sessionId).

(** Count active sessions for a user *)
Definition countUserSessions (userId : string) : M nat :=
  now <- Date_now ;;
  prisma (Prisma.session_count userId now).
End repo.
End sessionRepository.

(** ** [modules/auth/auth.service.ts] *)

(** A JavaScript value of the shapes that occur in a user object. *)
Inductive JsValue : Type :=
| JNull
| JBool (b : bool)
| JNum (n : Z)
| JStr (s : string)
| JDate (ms : Z).

Definition role_name (r : UserRole) : string :=
  match r with USER => "USER" | ADMIN => "ADMIN" end.

Definition nullable {A : Type} (f : A → JsValue) (o : option A) : JsValue :=
  match o with Some a => f a | None => JNull end.

(** The object the store client returns for a user row: one property per
    column. *)
Definition userObject (user : string * User) : gmap string JsValue :=
  let u := user.2 in
  list_to_map
    [ ("id", JStr user.1);
      ("email", JStr (u_email u));
      ("password", JStr (u_password u));
      ("firstName", JStr (u_firstName u));
      ("lastName", JStr (u_lastName u));
      ("avatarUrl", nullable JStr (u_avatarUrl u));
      ("role", JStr (role_name (u_role u)));
      ("isActive", JBool (u_isActive u));
      ("deletedAt", nullable JDate (u_deletedAt u));
      ("failedLoginAttempts", JNum (u_failedLoginAttempts u));
      ("lockedUntil", nullable JDate (u_lockedUntil u));
      ("createdAt", JDate (u_createdAt u));
      ("updatedAt", JDate (u_updatedAt u)) ].

Record AuthResult : Type := mkAuthResult {
  user : gmap string JsValue;
  accessToken : string;
  refreshToken : string
}.

Record RegisterInput : Type := mkRegisterInput {
  ri_email : string;
  ri_password : string;
  ri_firstName : string;
  ri_lastName : string
}.

Record LoginInput : Type := mkLoginInput {
  li_email : string;
  li_password : string
}.

Record TokenPair : Type := mkTokenPair {
  tp_accessToken : string;
  tp_refreshToken : string
}.

Definition invalidCredentials : Error :=
  UnauthorizedError "Invalid email or password" "INVALID_CREDENTIALS".

(** [Math.abs(a - b) < 5000] on the creation times of a session and a token *)
Definition withinTolerance (tokenCreatedMs : Z) (s : string * Session) : bool :=
  bool_decide (Z.abs (s_createdAt s.2 - tokenCreatedMs) < 5000).

Section service.
Context `{!Runtime}.

(** [const { password, createdAt, updatedAt, avatarUrl, ...rest } = user]
    and the object literal built from [rest]. *)
Definition sanitizeUser (user : string * User) : gmap string JsValue :=
  let u := user.2 in
  let rest :=
    delete "avatarUrl" (delete "updatedAt" (delete "createdAt"
      (delete "password" (userObject user)))) in
  <["updatedAt" := JStr (toISOString (u_updatedAt u))]>
    (<["createdAt" := JStr (toISOString (u_createdAt u))]>
       (<["avatarUrl" := nullable JStr (u_avatarUrl u)]> rest)).

Definition register (input : RegisterInput) (deviceInfo ipAddress : option string)
  : M AuthResult :=
  existingUser <- authRepo.findUserByEmail (ri_email input) ;;
  match existingUser with
  | Some _ => throw (ConflictError "Email already registered" "EMAIL_ALREADY_EXISTS")
  | None =>
      hashedPassword <- hashPassword (ri_password input) ;;
      user <- authRepo.createUser (ri_email input) hashedPassword
                (ri_firstName input) (ri_lastName input) ;;
      accessToken <- signAccessToken user.1 (u_role user.2) ;;
      refreshToken <- generateRefreshToken ;;
      refreshTokenExpiresAt <- getRefreshTokenExpiresAt ;;
      authRepo.createRefreshToken
        (mkRefreshTokenData refreshToken user.1 refreshTokenExpiresAt) ;;
      sessionRepository.createSession user.1 deviceInfo ipAddress
        refreshTokenExpiresAt ;;
      ret (mkAuthResult (sanitizeUser user) accessToken refreshToken)
  end.

(** [user.lockedUntil && user.lockedUntil > new Date()] *)
Definition isLocked (lockedUntil : option Z) (now : Z) : bool :=
  match lockedUntil with
  | Some t => bool_decide (now < t)
  | None => false
  end.

Definition login (input : LoginInput) (deviceInfo ipAddress : option string)
  : M AuthResult :=
  found <- authRepo.findUserByEmail (li_email input) ;;
  match found with
  | None => throw invalidCredentials
  | Some user =>
      (* Generic error for disabled accounts — prevent info leakage *)
      if negb (u_isActive user.2) then throw invalidCredentials else
      (* Check account lockout *)
      now <- Date_now ;;
      if isLocked (u_lockedUntil user.2) now then throw invalidCredentials else
      let v := verifyPassword (li_password input) (u_password user.2) in
      if negb (valid v) then
        (* Increment failed attempts *)
        let newAttempts := u_failedLoginAttempts user.2 + 1 in
        authRepo.incrementFailedAttempts user.1 ;;
        (* Check if we need to lock the account *)
        (* [if (lockDuration)]: neither [null] nor [0] *)
        match getLockoutDuration newAttempts with
        | Some lockDuration =>
            if bool_decide (lockDuration = 0) then ret tt
            else (now' <- Date_now ;;
                  authRepo.setAccountLock user.1 (now' + lockDuration))
        | None => ret tt
        end ;;
        throw invalidCredentials
      else
        (* Successful login — reset failed attempts *)
        (if bool_decide (0 < u_failedLoginAttempts user.2)
            || bool_decide (is_Some (u_lockedUntil user.2))
         then authRepo.resetFailedAttempts user.1
         else ret tt) ;;
        (* Transparent rehash: upgrade bcrypt → argon2id *)
        (if needsRehash v
         then (newHash <- hashPassword (li_password input) ;;
               authRepo.updateUserPassword user.1 newHash)
         else ret tt) ;;
        accessToken <- signAccessToken user.1 (u_role user.2) ;;
        refreshToken <- generateRefreshToken ;;
        refreshTokenExpiresAt <- getRefreshTokenExpiresAt ;;
        authRepo.createRefreshToken
          (mkRefreshTokenData refreshToken user.1 refreshTokenExpiresAt) ;;
        sessionRepository.createSession user.1 deviceInfo ipAddress
          refreshTokenExpiresAt ;;
        ret (mkAuthResult (sanitizeUser user) accessToken refreshToken)
  end.

Definition refresh (refreshToken : string) : M TokenPair :=
  storedToken <- authRepo.findRefreshToken refreshToken ;;
  match storedToken with
  | None => throw (UnauthorizedError "Invalid refresh token" "INVALID_REFRESH_TOKEN")
  | Some storedToken =>
      now <- Date_now ;;
      if bool_decide (rt_expiresAt storedToken < now) then
        authRepo.deleteRefreshToken refreshToken ;;
        throw (UnauthorizedError "Refresh token expired" "REFRESH_TOKEN_EXPIRED")
      else
        found <- authRepo.findUserById (rt_userId storedToken) ;;
        match found with
        | None =>
            throw (UnauthorizedError "User not found or disabled" "INVALID_REFRESH_TOKEN")
        | Some user =>
            if negb (u_isActive user.2) then
              throw (UnauthorizedError "User not found or disabled" "INVALID_REFRESH_TOKEN")
            else
              newAccessToken <- signAccessToken user.1 (u_role user.2) ;;
              newRefreshToken <- generateRefreshToken ;;
              (* Atomic rotation: delete old + create new in a single transaction. *)
              expiresAt <- getRefreshTokenExpiresAt ;;
              rotated <- authRepo.rotateRefreshToken refreshToken
                           (mkRefreshTokenData newRefreshToken user.1 expiresAt) ;;
              if negb rotated then
                throw (UnauthorizedError "Refresh token already used" "INVALID_REFRESH_TOKEN")
              else ret (mkTokenPair newAccessToken newRefreshToken)
        end
  end.

Definition logout (refreshToken : string) : M unit :=
  tryCatch
    ((* Find the token before deleting so we can match the corresponding session *)
     storedToken <- authRepo.findRefreshToken refreshToken ;;
     authRepo.deleteRefreshToken refreshToken ;;
     match storedToken with
     | Some storedToken =>
         sessions <- sessionRepository.getUserSessions (rt_userId storedToken) ;;
         let tokenCreatedMs := rt_createdAt storedToken in
         let matchingSession := List.find (withinTolerance tokenCreatedMs) sessions in
         match matchingSession with
         | Some matchingSession => sessionRepository.deleteSession matchingSession.1
         | None => ret tt
         end
     | None => ret tt
     end)
    (fun _ =>
       (* Token may already be deleted by concurrent request or cleanup job *)
       ret tt).

Definition getCurrentUser (userId : string) : M (gmap string JsValue) :=
  found <- authRepo.findUserById userId ;;
  match found with
  | None => throw (NotFoundError "User not found" "USER_NOT_FOUND")
  | Some user => ret (sanitizeUser user)
  end.

Definition logoutAllSessions (userId : string) : M nat :=
  sessionCount <- sessionRepository.deleteAllUserSessions userId ;;
  authRepo.deleteRefreshTokensByUserId userId ;;
  ret sessionCount.
End service.

(** [getUserSessions] of [auth.service.ts]: the sessions as the caller sees
    them, the owner left out and the times as ISO strings. *)
Record SessionInfo : Type := mkSessionInfo {
  si_id : string;
  si_deviceInfo : option string;
  si_ipAddress : option string;
  si_lastActiveAt : string;
  si_expiresAt : string;
  si_createdAt : string
}.

Section sessions_service.
Context `{!Runtime}.

(** The function mapped over the sessions. *)
Definition sessionInfo (session : string * Session) : SessionInfo :=
  mkSessionInfo session.1
    (s_deviceInfo session.2)
    (s_ipAddress session.2)
    (toISOString (s_lastActiveAt session.2))
    (toISOString (s_expiresAt session.2))
    (toISOString (s_createdAt session.2)).

Definition getUserSessions (userId : string) : M (list SessionInfo) :=
  sessions <- sessionRepository.getUserSessions userId ;;
  ret (map sessionInfo sessions).
End sessions_service.

(** ** [libs/cleanup.ts] *)

Definition CLEANUP_INTERVAL_MS : Z := 60 * 60 * 1000.

(** What the cleanup job hands to the logger. *)
Inductive LogRecord : Type :=
| LogInfo (deletedTokens deletedSessions : nat)
| LogError (err : Error).

(** The function [registerCleanupJob] runs every [CLEANUP_INTERVAL_MS]; its
    result is the record it logs, if it logs one. *)
Definition cleanupTick : M (option LogRecord) :=
  tryCatch
    (now <- Date_now ;;
     deletedTokens <- prisma (Prisma.refreshToken_deleteMany_expired now) ;;
     deletedSessions <- prisma (Prisma.session_deleteMany_expired now) ;;
     if bool_decide (0 < deletedTokens)%nat || bool_decide (0 < deletedSessions)%nat
     then ret (Some (LogInfo deletedTokens deletedSessions))
     else ret None)
    (fun error => ret (Some (LogError error))).

(** ** [shared/responses/successResponse.ts] and the reply *)

(** The [data] of the responses of the auth controller. *)
Inductive Payload : Type :=
| PNull
| PUser (user : gmap string JsValue)
| PWrappedUser (user : gmap string JsValue)
| PSessions (sessions : list SessionInfo)
| PCount (count : nat).

Inductive ResponseBody : Type :=
| successResponse (message : string) (data : Payload)
| errorResponse (code message : string).

Record CookieOptions : Type := mkCookieOptions {
  co_httpOnly : bool;
  co_secure : bool;
  co_sameSite : string;
  co_path : string;
  co_maxAge : option Z
}.

Inductive CookieOp : Type :=
| SetCookie (name value : string) (options : CookieOptions)
| ClearCookie (name : string) (options : CookieOptions).

(** The reply of the web framework, as far as the controller drives it: the
    status, the cookie headers in the order they were added, and the
    payload sent. *)
Record Reply : Type := mkReply {
  r_status : Z;
  r_cookies : list CookieOp;
  r_sent : option ResponseBody
}.

Definition freshReply : Reply := mkReply 200 [] None.

Definition reply_setCookie (name value : string) (options : CookieOptions) (reply : Reply)
  : Reply :=
  mkReply (r_status reply) (r_cookies reply ++ [SetCookie name value options])
    (r_sent reply).

Definition reply_clearCookie (name : string) (options : CookieOptions) (reply : Reply)
  : Reply :=
  mkReply (r_status reply) (r_cookies reply ++ [ClearCookie name options]) (r_sent reply).

Definition reply_status (code : Z) (reply : Reply) : Reply :=
  mkReply code (r_cookies reply) (r_sent reply).

Definition reply_send (body : ResponseBody) (reply : Reply) : Reply :=
  mkReply (r_status reply) (r_cookies reply) (Some body).

(** ** [libs/cookies.ts] *)

(** The deployment the server runs in ([env.NODE_ENV]). *)
Class Deployment : Type := { NODE_ENV : string }.

Section cookies.
Context `{!Runtime} `{!Deployment}.

Definition isProduction : bool := bool_decide (NODE_ENV = "production").

Definition ACCESS_TOKEN_MAX_AGE_MS : Z :=
  parseDurationMs (JWT_ACCESS_EXPIRY env) (15 * 60 * 1000).

Definition REFRESH_TOKEN_MAX_AGE_MS : Z :=
  parseDurationMs (JWT_REFRESH_EXPIRY env) (7 * 24 * 60 * 60 * 1000).

Definition setAuthCookies (reply : Reply) (accessToken refreshToken : string) : Reply :=
  let reply :=
    reply_setCookie "access_token" accessToken
      (mkCookieOptions true isProduction "strict" "/"
         (Some (ACCESS_TOKEN_MAX_AGE_MS `div` 1000))) reply in
  reply_setCookie "refresh_token" refreshToken
    (mkCookieOptions true isProduction "strict" "/api/v1/auth"
       (Some (REFRESH_TOKEN_MAX_AGE_MS `div` 1000))) reply.

Definition clearAuthCookies (reply : Reply) : Reply :=
  let reply :=
    reply_clearCookie "access_token"
      (mkCookieOptions true isProduction "strict" "/" None) reply in
  reply_clearCookie "refresh_token"
    (mkCookieOptions true isProduction "strict" "/api/v1/auth" None) reply.
End cookies.

(** ** [modules/auth/auth.controller.ts] *)

(** What the controller reads of a request: the [user-agent] header, the
    address, the [refresh_token] cookie and the user the access token was
    issued to. *)
Record Request : Type := mkRequest {
  req_userAgent : option string;
  req_ip : string;
  req_refresh_token : option string;
  req_userId : string
}.

(** [!refreshToken]: no cookie, or an empty one *)
Definition presentCookie (cookie : option string) : option string :=
  match cookie with
  | Some value => if bool_decide (value = "") then None else Some value
  | None => None
  end.

Module authController.
Section controller.
Context `{!Runtime} `{!Deployment}.

Definition register (body : RegisterInput) (request : Request) (reply : Reply) : M Reply :=
  let deviceInfo := req_userAgent request in
  let ipAddress := req_ip request in
  result <- register body deviceInfo (Some ipAddress) ;;
  let reply := setAuthCookies reply (accessToken result) (refreshToken result) in
  ret (reply_send (successResponse "User registered successfully"
                     (PWrappedUser (user result)))
         (reply_status 201 reply)).

Definition login (body : LoginInput) (request : Request) (reply : Reply) : M Reply :=
  let deviceInfo := req_userAgent request in
  let ipAddress := req_ip request in
  result <- login body deviceInfo (Some ipAddress) ;;
  let reply := setAuthCookies reply (accessToken result) (refreshToken result) in
  ret (reply_send (successResponse "Logged in successfully" (PWrappedUser (user result)))
         reply).

Definition refresh (request : Request) (reply : Reply) : M Reply :=
  match presentCookie (req_refresh_token request) with
  | None =>
      throw (UnauthorizedError "Refresh token not provided" "MISSING_REFRESH_TOKEN")
  | Some refreshToken =>
      tokens <- refresh refreshToken ;;
      let reply := setAuthCookies reply (tp_accessToken tokens) (tp_refreshToken tokens) in
      ret (reply_send (successResponse "Token refreshed successfully" PNull) reply)
  end.

Definition logout (request : Request) (reply : Reply) : M Reply :=
  match presentCookie (req_refresh_token request) with
  | Some refreshToken => logout refreshToken
  | None => ret tt
  end ;;
  let reply := clearAuthCookies reply in
  ret (reply_send (successResponse "Logged out successfully" PNull) reply).

Definition me (request : Request) (reply : Reply) : M Reply :=
  user <- getCurrentUser (req_userId request) ;;
  ret (reply_send (successResponse "Current user retrieved" (PUser user)) reply).

Definition getSessions (request : Request) (reply : Reply) : M Reply :=
  sessions <- getUserSessions (req_userId request) ;;
  ret (reply_send (successResponse "User sessions retrieved" (PSessions sessions)) reply).

Definition logoutAllSessions (request : Request) (reply : Reply) : M Reply :=
  count <- logoutAllSessions (req_userId request) ;;
  let reply := clearAuthCookies reply in
  ret (reply_send
         (successResponse
            ("Successfully logged out from " +:+ pretty count +:+ " session(s)")
            (PCount count))
         reply).
End controller.
End authController.

(** ** The error handler of [app.ts] *)

(** What the handler looks at in the error it is given: whether it is an
    [AppError] (with its code, message and status), and otherwise its
    [name], [message], [validation] and [statusCode] properties. *)
Inductive HandledError : Type :=
| AppErr (code message : string) (statusCode : Z)
| OtherErr (name message : string) (validation : bool) (statusCode : option Z).

(** [error.message || fallback] *)
Definition orElse (message fallback : string) : string :=
  if bool_decide (message = "") then fallback else message.

Definition errorCodeMap (statusCode : Z) : option (string * string) :=
  if bool_decide (statusCode = 413)
  then Some ("FILE_TOO_LARGE", "File size exceeds the maximum allowed limit")
  else if bool_decide (statusCode = 429)
  then Some ("RATE_LIMIT_EXCEEDED", "Too many requests. Please try again later")
  else None.

(** The function given to [app.setErrorHandler]: the status and the body of
    the reply. *)
Definition errorHandler (error : HandledError) : Z * ResponseBody :=
  match error with
  | AppErr code message statusCode => (statusCode, errorResponse code message)
  | OtherErr name message validation statusCode =>
      if bool_decide (name = "ZodError")
      then (422, errorResponse "VALIDATION_FAILED" "Validation failed")
      else if validation
      then (400, errorResponse "BAD_REQUEST" (orElse message "Invalid request"))
      else
        match statusCode with
        | Some status =>
            if bool_decide (400 ≤ status) && bool_decide (status < 500) then
              let errorInfo :=
                match errorCodeMap status with
                | Some info => info
                | None => ("BAD_REQUEST", orElse message "Bad request")
                end in
              (status, errorResponse errorInfo.1 errorInfo.2)
            else (500, errorResponse "INTERNAL_ERROR" "Internal server error")
        | None => (500, errorResponse "INTERNAL_ERROR" "Internal server error")
        end
  end.

(** The error of the model as the handler sees it; [detail] is the message
    of a store error. *)
Definition asHandled (e : Error) (detail : string) : HandledError :=
  match e with
  | AppError _ code message statusCode => AppErr code message statusCode
  | PrismaKnownError _ => OtherErr "PrismaClientKnownRequestError" detail false None
  | JsError message => OtherErr "Error" message false None
  end.

(** ** A runtime to run the definitions on

    Stand-ins for the libraries, small enough to evaluate: identifiers are
    numbered, the modern hash keeps the password between its prefix and the
    salt, the legacy hash is its prefix followed by the password. *)

Definition demo_uuid (n : nat) : string := "uuid-" +:+ pretty n.

Definition demo_hash (_ : Argon2Options) (password : string) (salt : nat) : string :=
  "$argon2id$" +:+ password +:+ "$" +:+ pretty salt.

Definition demo_argon2_verify (hash password : string) : bool :=
  String.prefix ("$argon2id$" +:+ password +:+ "$") hash.

Definition demo_bcrypt_compare (password hash : string) : bool :=
  bool_decide (hash = "$2a$" +:+ password).

Definition demo_sign (userId : string) (role : UserRole) (expiresIn : string) : string :=
  "jwt." +:+ userId +:+ "." +:+ role_name role +:+ "." +:+ expiresIn.

Definition demo : Runtime := {|
  uuidv4 := demo_uuid;
  argon2_hash := demo_hash;
  argon2_verify := demo_argon2_verify;
  bcrypt_compare := demo_bcrypt_compare;
  jwt_sign := demo_sign;
  toISOString := fun ms => pretty ms;
  env := mkEnv "15m" "7d"
|}.

(** A store with one account, two of its refresh tokens (the older one
    expired) and one session, at time 2000; and an empty store. *)
Definition demo_user : User :=
  mkUser "a@x.com" "$2a$Passw0rd" "A" "B" None USER true None 5 (Some 10) 0 0.

Definition demo_token : RefreshToken := mkRefreshToken "row-1" "user-1" 5000000 1000.

Definition demo_expired_token : RefreshToken := mkRefreshToken "row-0" "user-1" 1500 100.

Definition demo_session : Session := mkSession "user-1" None None 1000 5000000 1200.

Definition demo_state : State :=
  mkState {[ "user-1" := demo_user ]}
    (<[ "token-1" := demo_token ]> {[ "token-0" := demo_expired_token ]})
    {[ "session-1" := demo_session ]}
    2000 0 true.

Definition demo_empty : State := mkState ∅ ∅ ∅ 1000 0 true.

(** Steps of the environment: one that leaves the state alone, and a
    concurrent request that consumes a token. *)
Definition undisturbed : EnvStep := mkEnvStep (fun s => s) None.

Definition consume (token : string) : EnvStep :=
  mkEnvStep (with_refreshTokens (delete token)) None.

(** ** Vocabulary of the properties *)

(** The durations of a table of thresholds do not decrease along it. *)
Definition durations_ascending (table : list Threshold) : Prop :=
  ∀ (i j : nat) (t t' : Threshold),
    (i ≤ j)%nat → table !! i = Some t → table !! j = Some t' →
    durationMs t ≤ durationMs t'.

(** The world left by a store call that found the store unreachable. *)
Definition unreached (w : World) : World :=
  match sched w with
  | [] => w
  | e :: rest => mkWorld (interfere e (st w)) rest
  end.

(** A request is undisturbed when no other request changes the state during
    its store calls; the calls may still find the store unreachable. *)
Definition calm (w : World) : Prop :=
  Forall (fun e => ∀ s, interfere e s = s) (sched w).

(** What [logout] does to the state when the request runs alone: the
    token is deleted, and so is the first of the owner's active sessions,
    most recently active first, that was created within the tolerance. *)
Definition logout_effect (token : string) (s : State) : State :=
  match refreshTokens s !! token with
  | None => s
  | Some stored =>
      let s1 := with_refreshTokens (delete token) s in
      match List.find (withinTolerance (rt_createdAt stored))
              (Prisma.activeSessions (rt_userId stored) (clock s) (sessions s)) with
      | Some m => with_sessions (delete m.1) s1
      | None => s1
      end
  end.

(** The row the rotation inserts, in the state in which it runs. *)
Definition rotated_row `{!Runtime} (s : State) (new : RefreshTokenData) : RefreshToken :=
  mkRefreshToken (uuidv4 (entropy s)) (d_userId new) (d_expiresAt new) (clock s).

(** The world in which the rotation is called, given the world in which
    the owner of the token was loaded: one random token has been drawn. *)
Definition drawn (w : World) : World := mkWorld (next_entropy (st w)) (sched w).

(** A failure of the store or of the runtime, as opposed to an error of the
    application. *)
Definition store_failure (e : Error) : Prop :=
  match e with
  | AppError _ _ _ _ => False
  | PrismaKnownError _ | JsError _ => True
  end.

(** The errors a call can throw. *)
Definition throws_only {A : Type} (φ : Error → Prop) (m : M A) : Prop :=
  ∀ (w w' : World) (e : Error), m w = (Throw e, w') → φ e.

(** The rows of the users other than [id], and the two other tables, are
    as they were. *)
Definition only_user_changed (id : string) (s s' : State) : Prop :=
  (∀ id' : string, id' ≠ id → users s' !! id' = users s !! id')
  ∧ refreshTokens s' = refreshTokens s
  ∧ sessions s' = sessions s.

(** From [s] to [s'] no counter of failed attempts has gone down and no lock
    has been cleared. *)
Definition no_reset (s s' : State) : Prop :=
  ∀ (id : string) (u : User),
    users s !! id = Some u →
    ∃ u' : User,
      users s' !! id = Some u'
      ∧ u_failedLoginAttempts u ≤ u_failedLoginAttempts u'
      ∧ (is_Some (u_lockedUntil u) → is_Some (u_lockedUntil u')).

(** A request that runs alone takes a state to a state related by [I]. *)
Definition steps {A : Type} (I : State → State → Prop) (m : M A) : Prop :=
  ∀ s : State, ∃ s' : State, (m (mkWorld s [])).2 = mkWorld s' [] ∧ I s s'.

(** The values a call can return. *)
Definition returns_only {A : Type} (ψ : A → Prop) (m : M A) : Prop :=
  ∀ (w w' : World) (a : A), m w = (Ok a, w') → ψ a.

(** ** Numerals *)

(** The character of a decimal digit and the numeral of a list of digits,
    most significant first. *)
Definition digit_char (d : nat) : ascii := ascii_of_nat (48 + d).

Fixpoint numeral (ds : list nat) : string :=
  match ds with
  | [] => EmptyString
  | d :: ds' => String (digit_char d) (numeral ds')
  end.

(** The number the digits denote. *)
Definition decimal_from (value : Z) (ds : list nat) : Z :=
  fold_left (fun acc d => 10 * acc + Z.of_nat d) ds value.

Definition decimal (ds : list nat) : Z := decimal_from 0 ds.

Definition digits (ds : list nat) : Prop := Forall (fun d => (d < 10)%nat) ds.

(** [Number.MAX_SAFE_INTEGER]: up to it, the numbers of the code are the
    integers they denote. *)
Definition MAX_SAFE_INTEGER : Z := 9007199254740991.

(** From [s] to [s'] the users and the sessions are as they were. *)
Definition users_and_sessions_kept (s s' : State) : Prop :=
  users s' = users s ∧ sessions s' = sessions s.

(** The application errors of [refresh]: Unauthorized, with one of its two
    codes. *)
Definition refresh_refusal (e : Error) : Prop :=
  ∃ message code : string,
    e = AppError "UnauthorizedError" code message 401
    ∧ (code = "INVALID_REFRESH_TOKEN" ∨ code = "REFRESH_TOKEN_EXPIRED").

(** The answer of the server to an error it did not expect. *)
Definition internalError : Z * ResponseBody :=
  (500, errorResponse "INTERNAL_ERROR" "Internal server error").

(** The deployment of the demo, a step of the environment that finds the
    store unreachable, and the demo store with the account disabled. *)
Definition demo_deployment : Deployment := {| NODE_ENV := "production" |}.

Definition unreachable : EnvStep := mkEnvStep (fun s => s) (Some "connection lost").

Definition demo_disabled : State :=
  with_users
    (insert "user-1" (mkUser "a@x.com" "$2a$Passw0rd" "A" "B" None USER false None 0 None 0 0))
    demo_state.

(** * Properties *)

(** ** Running store calls *)

Lemma prisma_arrive {A : Type} (q : Query A) (w w1 : World) :
  arrive w = Some w1 →
  prisma q w = ((q (st w1)).1, mkWorld (q (st w1)).2 (sched w1)).
Proof.
  unfold arrive, prisma. destruct w as [s [|e rest]]; simpl.
  - intros [= <-]; simpl. by destruct (q s).
  - destruct (fault e); [done|]. intros [= <-]; simpl.
    by destruct (q (interfere e s)).
Qed.

Lemma prisma_unreached {A : Type} (q : Query A) (w : World) :
  arrive w = None →
  ∃ msg, prisma q w = (Throw (JsError msg), unreached w).
Proof.
  unfold arrive, prisma, unreached. destruct w as [s [|e rest]]; simpl; [done|].
  destruct (fault e) as [msg|]; [|done]. intros _. by exists msg.
Qed.

Lemma prisma_quiet {A : Type} (q : Query A) (s : State) :
  prisma q (mkWorld s []) = ((q s).1, mkWorld (q s).2 []).
Proof. unfold prisma; simpl. by destruct (q s). Qed.

(** ** Lockout policy *)

Lemma lockout_loop_bound (table : list Threshold) (n : Z) (k : nat) (d : Z) :
  lockout_loop table n k = Some d →
  ∃ (i : nat) (t : Threshold),
    (i < k)%nat ∧ table !! i = Some t ∧ attempts t ≤ n ∧ durationMs t = d.
Proof.
  induction k as [|i IH]; simpl; [done|].
  destruct (table !! i) as [t|] eqn:Ht.
  - case_bool_decide as Hmet.
    + intros [= <-]. exists i, t. repeat split; [lia|done..].
    + intros Hd. destruct (IH Hd) as (i' & t' & Hlt & Hrest).
      exists i', t'. split; [lia|done].
  - intros Hd. destruct (IH Hd) as (i' & t' & Hlt & Hrest).
    exists i', t'. split; [lia|done].
Qed.

(** The loop is monotone in the count for every table whose durations do
    not decrease along the table. *)
Lemma lockout_loop_mono (table : list Threshold) (n m : Z) (k : nat) :
  durations_ascending table → n ≤ m →
  duration_le (lockout_loop table n k) (lockout_loop table m k).
Proof.
  intros Hasc Hnm. induction k as [|i IH]; simpl; [done|].
  destruct (table !! i) as [t|] eqn:Ht; [|done].
  case_bool_decide as Hn.
  - rewrite bool_decide_eq_true_2 by lia. simpl. lia.
  - case_bool_decide as Hm; [|done].
    destruct (lockout_loop table n i) as [d|] eqn:Hd; [|done].
    apply lockout_loop_bound in Hd as (i' & t' & Hlt & Ht' & _ & <-).
    simpl. apply (Hasc i' i t' t); [lia|done..].
Qed.

Lemma LOCKOUT_THRESHOLDS_ascending : durations_ascending LOCKOUT_THRESHOLDS.
Proof.
  intros i j t t' Hij Hi Hj.
  destruct i as [|[|[|i]]]; destruct j as [|[|[|j]]]; simplify_eq/=; lia.
Qed.

(** C4.  The lockout duration is non-decreasing in the number of failed
    attempts ([null] counting as the least duration), is [null] below five
    attempts, takes the reference values at 4, 5, 9, 10 and 20 attempts, and
    is the duration of the highest threshold of the table that the count
    meets or exceeds.  The count ranges over all integers, the natural
    numbers among them. *)
Theorem getLockoutDuration_policy :
  (∀ n m : Z, n ≤ m → duration_le (getLockoutDuration n) (getLockoutDuration m))
  ∧ (∀ n : Z, n < 5 → getLockoutDuration n = None)
  ∧ getLockoutDuration 4 = None
  ∧ getLockoutDuration 5 = Some (minutes 15)
  ∧ getLockoutDuration 9 = Some (minutes 15)
  ∧ getLockoutDuration 10 = Some (minutes 30)
  ∧ getLockoutDuration 20 = Some (minutes 60)
  ∧ (∀ (n d : Z),
       getLockoutDuration n = Some d ↔
       ∃ t, t ∈ LOCKOUT_THRESHOLDS ∧ attempts t ≤ n ∧ durationMs t = d
            ∧ ∀ t', t' ∈ LOCKOUT_THRESHOLDS → attempts t' ≤ n → attempts t' ≤ attempts t).
Proof.
  repeat split; try reflexivity.
  - intros n m Hnm. apply lockout_loop_mono; [|done].
    apply LOCKOUT_THRESHOLDS_ascending.
  - intros n Hn. unfold getLockoutDuration; simpl.
    repeat case_bool_decide; simpl in *; (done || lia).
  - unfold getLockoutDuration; simpl. intros Hd.
    repeat case_bool_decide; simplify_eq/=.
    + exists (mkThreshold 15 (60 * 60 * 1000)).
      split; [repeat constructor|]. repeat split; [done|].
      intros t' Ht'. set_unfold. destruct Ht' as [->|[->|[->|[]]]]; simpl; lia.
    + exists (mkThreshold 10 (30 * 60 * 1000)).
      split; [repeat constructor|]. repeat split; [done|].
      intros t' Ht'. set_unfold. destruct Ht' as [->|[->|[->|[]]]]; simpl; lia.
    + exists (mkThreshold 5 (15 * 60 * 1000)).
      split; [repeat constructor|]. repeat split; [done|].
      intros t' Ht'. set_unfold. destruct Ht' as [->|[->|[->|[]]]]; simpl; lia.
  - intros (t & Ht & Hn & <- & Hmax). unfold getLockoutDuration; simpl.
    assert (H10 : 10 ≤ n → 10 ≤ attempts t).
    { apply (Hmax (mkThreshold 10 (30 * 60 * 1000))). repeat constructor. }
    assert (H15 : 15 ≤ n → 15 ≤ attempts t).
    { apply (Hmax (mkThreshold 15 (60 * 60 * 1000))). repeat constructor. }
    clear Hmax. set_unfold. simpl in *.
    destruct Ht as [->|[->|[->|[]]]]; simpl in *;
      repeat case_bool_decide; simpl in *; try done; lia.
Qed.

(** ** Running the repositories *)

Lemma bind_eq {A B : Type} (m : M A) (k : A → M B) (w : World) (x : Result A * World) :
  m w = x →
  bind m k w = match x with
               | (Ok a, w') => k a w'
               | (Throw e, w') => (Throw e, w')
               end.
Proof. unfold bind. by intros ->. Qed.

Lemma world_eta (w : World) : mkWorld (st w) (sched w) = w.
Proof. by destruct w. Qed.

(** [run H] steps through the first call of a sequence, [H] being the
    equation of that call in the current world. *)
Tactic Notation "run" uconstr(H) := erewrite (bind_eq _ _ _ _ H); simpl.

Section repo_calls.
Context `{!Runtime}.

Lemma findRefreshToken_arrive (t : string) (w w1 : World) :
  arrive w = Some w1 →
  authRepo.findRefreshToken t w = (Ok (refreshTokens (st w1) !! t), w1).
Proof.
  intros Ha. unfold authRepo.findRefreshToken.
  rewrite (prisma_arrive _ _ _ Ha). simpl. by rewrite world_eta.
Qed.

(** Whether the row is there or not, [deleteRefreshToken] succeeds and the
    row is not there afterwards. *)
Lemma deleteRefreshToken_arrive (t : string) (w w1 : World) :
  arrive w = Some w1 →
  authRepo.deleteRefreshToken t w
  = (Ok tt, mkWorld (with_refreshTokens (delete t) (st w1)) (sched w1)).
Proof.
  intros Ha. unfold authRepo.deleteRefreshToken, tryCatch, bind.
  rewrite (prisma_arrive _ _ _ Ha). unfold Prisma.refreshToken_delete.
  destruct (refreshTokens (st w1) !! t) eqn:Ht; simpl; [done|].
  unfold ret. do 2 f_equal. unfold with_refreshTokens.
  rewrite (delete_id _ _ Ht). by destruct (st w1).
Qed.

Lemma findUserByEmail_arrive (email : string) (w w1 : World) :
  arrive w = Some w1 →
  authRepo.findUserByEmail email w
  = (Ok (Prisma.findFirst (Prisma.where_email email) (users (st w1))), w1).
Proof.
  intros Ha. unfold authRepo.findUserByEmail.
  rewrite (prisma_arrive _ _ _ Ha). simpl. by rewrite world_eta.
Qed.

Lemma findUserById_arrive (id : string) (w w1 : World) :
  arrive w = Some w1 →
  authRepo.findUserById id w = (Ok (Prisma.where_id id (users (st w1))), w1).
Proof.
  intros Ha. unfold authRepo.findUserById.
  rewrite (prisma_arrive _ _ _ Ha). simpl. by rewrite world_eta.
Qed.

Lemma getUserSessions_arrive (userId : string) (w w1 : World) :
  arrive w = Some w1 →
  sessionRepository.getUserSessions userId w
  = (Ok (Prisma.activeSessions userId (clock (st w)) (sessions (st w1))), w1).
Proof.
  intros Ha. unfold sessionRepository.getUserSessions, bind, Date_now.
  rewrite (prisma_arrive _ _ _ Ha). simpl. by rewrite world_eta.
Qed.

Lemma deleteSession_arrive (id : string) (w w1 : World) :
  arrive w = Some w1 →
  sessionRepository.deleteSession id w
  = match sessions (st w1) !! id with
    | Some _ => (Ok tt, mkWorld (with_sessions (delete id) (st w1)) (sched w1))
    | None => (Throw (PrismaKnownError "P2025"), w1)
    end.
Proof.
  intros Ha. unfold sessionRepository.deleteSession, bind.
  rewrite (prisma_arrive _ _ _ Ha). unfold Prisma.session_delete.
  destruct (sessions (st w1) !! id); simpl; [done|]. by rewrite world_eta.
Qed.

(** The rotation on arrival: the old row is gone and nothing changes, or
    the new token is taken and nothing changes, or the old row is
    replaced by the new one. *)
Lemma rotateRefreshToken_arrive (old : string) (new : RefreshTokenData) (w w1 : World) :
  arrive w = Some w1 →
  authRepo.rotateRefreshToken old new w
  = match refreshTokens (st w1) !! old with
    | None => (Ok false, w1)
    | Some _ =>
        match delete old (refreshTokens (st w1)) !! d_token new with
        | Some _ => (Throw (PrismaKnownError "P2002"), w1)
        | None =>
            (Ok true,
             mkWorld
               (with_refreshTokens
                  (fun m => <[d_token new :=
                                mkRefreshToken (uuidv4 (entropy (st w1))) (d_userId new)
                                  (d_expiresAt new) (clock (st w1))]> (delete old m))
                  (next_entropy (st w1)))
               (sched w1))
        end
    end.
Proof.
  intros Ha. unfold authRepo.rotateRefreshToken, tryCatch, bind.
  rewrite (prisma_arrive _ _ _ Ha).
  unfold transaction, Prisma.refreshToken_delete, Prisma.refreshToken_create.
  destruct (refreshTokens (st w1) !! old) eqn:Hold; simpl.
  - destruct (delete old (refreshTokens (st w1)) !! d_token new) eqn:Hnew; simpl.
    + by rewrite world_eta.
    + done.
  - by rewrite world_eta.
Qed.
End repo_calls.


Lemma arrive_nil (s : State) : arrive (mkWorld s []) = Some (mkWorld s []).
Proof. reflexivity. Qed.

Lemma calm_nil (s : State) : calm (mkWorld s []).
Proof. constructor. Qed.

Lemma calm_arrive (w w1 : World) :
  calm w → arrive w = Some w1 → st w1 = st w ∧ calm w1.
Proof.
  unfold calm, arrive. destruct w as [s [|e rest]]; simpl.
  - by intros ? [= <-].
  - intros Hc. destruct (fault e); [done|]. intros [= <-]; simpl.
    inversion Hc; subst. by split.
Qed.

Lemma calm_unreached (w : World) : calm w → st (unreached w) = st w.
Proof.
  unfold calm, unreached. destruct w as [s [|e rest]]; simpl; [done|].
  intros Hc. by inversion Hc; subst.
Qed.

Section repo_faults.
Context `{!Runtime}.

Lemma findRefreshToken_unreached (t : string) (w : World) :
  arrive w = None →
  ∃ msg, authRepo.findRefreshToken t w = (Throw (JsError msg), unreached w).
Proof. apply prisma_unreached. Qed.

Lemma deleteRefreshToken_unreached (t : string) (w : World) :
  arrive w = None →
  ∃ msg, authRepo.deleteRefreshToken t w = (Throw (JsError msg), unreached w).
Proof.
  intros Ha.
  destruct (prisma_unreached (Prisma.refreshToken_delete t) w Ha) as [msg Hq].
  exists msg. unfold authRepo.deleteRefreshToken, tryCatch, bind. by rewrite Hq.
Qed.

Lemma getUserSessions_unreached (userId : string) (w : World) :
  arrive w = None →
  ∃ msg, sessionRepository.getUserSessions userId w
         = (Throw (JsError msg), unreached w).
Proof.
  intros Ha. unfold sessionRepository.getUserSessions, bind, Date_now.
  apply (prisma_unreached _ _ Ha).
Qed.

Lemma deleteSession_unreached (id : string) (w : World) :
  arrive w = None →
  ∃ msg, sessionRepository.deleteSession id w = (Throw (JsError msg), unreached w).
Proof.
  intros Ha.
  destruct (prisma_unreached (Prisma.session_delete id) w Ha) as [msg Hq].
  exists msg. unfold sessionRepository.deleteSession, bind. by rewrite Hq.
Qed.
End repo_faults.

(** ** Logout *)

Section logout_props.
Context `{!Runtime}.

Lemma logout_quiet (token : string) (s : State) :
  logout token (mkWorld s []) = (Ok tt, mkWorld (logout_effect token s) []).
Proof.
  unfold logout, logout_effect, tryCatch.
  run (findRefreshToken_arrive token _ _ (arrive_nil s)).
  run (deleteRefreshToken_arrive token _ _ (arrive_nil s)).
  destruct (refreshTokens s !! token) as [stored|] eqn:Hstored.
  - run (getUserSessions_arrive (rt_userId stored) _ _ (arrive_nil _)).
    destruct (List.find _ _) as [m|] eqn:Hfind; [|done].
    erewrite (deleteSession_arrive m.1 _ _ (arrive_nil _)). simpl.
    destruct (sessions s !! m.1) eqn:Hm; [done|].
    unfold ret, with_sessions; simpl. by rewrite (delete_id _ _ Hm).
  - unfold ret, with_refreshTokens. rewrite (delete_id _ _ Hstored). by destruct s.
Qed.

Lemma logout_effect_token_gone (token : string) (s : State) :
  refreshTokens (logout_effect token s) !! token = None.
Proof.
  unfold logout_effect.
  destruct (refreshTokens s !! token) as [stored|] eqn:Hstored; [|done].
  destruct (List.find _ _); simpl; apply lookup_delete_eq.
Qed.

(** C5.  [logout] never throws, whatever the token, the state and the
    behaviour of the store during the call; in particular not when it is
    called a second time.  Deleting a token that is already gone is a
    success of [deleteRefreshToken]; and when the request runs alone, the
    first [logout] leaves the token absent and the second one changes
    nothing. *)
Theorem logout_never_throws :
  (∀ (t : string) (w : World), (logout t w).1 = Ok tt)
  ∧ (∀ (t : string) (w : World), (logout t (logout t w).2).1 = Ok tt)
  ∧ (∀ (t : string) (w w1 : World),
       arrive w = Some w1 → refreshTokens (st w1) !! t = None →
       authRepo.deleteRefreshToken t w = (Ok tt, w1))
  ∧ (∀ (t : string) (s : State),
       let w1 := (logout t (mkWorld s [])).2 in
       refreshTokens (st w1) !! t = None ∧ logout t w1 = (Ok tt, w1)).
Proof.
  assert (Hnever : ∀ (t : string) (w : World), (logout t w).1 = Ok tt).
  { intros t w. unfold logout, tryCatch.
    match goal with
    | |- context [match ?m w with _ => _ end] => destruct (m w) as [[[]|e] w']
    end; reflexivity. }
  repeat split; auto.
  - intros t w w1 Harrive Hgone.
    rewrite (deleteRefreshToken_arrive _ _ _ Harrive).
    unfold with_refreshTokens. rewrite (delete_id _ _ Hgone).
    destruct w1 as [[] ?]; done.
  - rewrite logout_quiet. simpl. apply logout_effect_token_gone.
  - rewrite logout_quiet. simpl. rewrite logout_quiet.
    do 2 f_equal. unfold logout_effect at 1.
    by rewrite logout_effect_token_gone.
Qed.

Lemma find_activeSessions_Some (c : Z) (userId : string) (now : Z)
    (table : gmap string Session) (m : string * Session) :
  List.find (withinTolerance c) (Prisma.activeSessions userId now table) = Some m →
  table !! m.1 = Some m.2 ∧ s_userId m.2 = userId ∧ now < s_expiresAt m.2
  ∧ Z.abs (s_createdAt m.2 - c) < 5000.
Proof.
  intros Hfind. apply find_some in Hfind as [Hin Hwithin].
  apply list_elem_of_In in Hin. unfold Prisma.activeSessions in Hin.
  rewrite merge_sort_Permutation in Hin.
  apply list_elem_of_filter in Hin as [[Huser Hactive] Hin].
  destruct m as [id row]. apply elem_of_map_to_list in Hin.
  unfold withinTolerance in Hwithin. apply bool_decide_eq_true in Hwithin.
  done.
Qed.

(** The states an undisturbed [logout] can leave: the one it started in
    (the store was unreachable before the token was deleted), that state
    without the token (the store became unreachable afterwards), or the
    full effect. *)
Lemma logout_calm (token : string) (w : World) :
  calm w →
  let s' := st (logout token w).2 in
  s' = st w ∨ s' = with_refreshTokens (delete token) (st w)
  ∨ s' = logout_effect token (st w).
Proof.
  intros Hc. simpl. unfold logout, tryCatch.
  destruct (arrive w) as [w1|] eqn:H1.
  2: { destruct (findRefreshToken_unreached token w H1) as [msg Hq].
       run Hq. left. by apply calm_unreached. }
  destruct (calm_arrive _ _ Hc H1) as [Hs1 Hc1].
  run (findRefreshToken_arrive token _ _ H1).
  destruct (arrive w1) as [w2|] eqn:H2.
  2: { destruct (deleteRefreshToken_unreached token w1 H2) as [msg Hq].
       run Hq. left. rewrite <- Hs1. by apply calm_unreached. }
  destruct (calm_arrive _ _ Hc1 H2) as [Hs2 Hc2].
  run (deleteRefreshToken_arrive token _ _ H2).
  rewrite Hs2, Hs1. unfold logout_effect.
  destruct (refreshTokens (st w) !! token) as [stored|] eqn:Hstored; simpl.
  2: { right; left. done. }
  set (w2' := mkWorld (with_refreshTokens (delete token) (st w)) (sched w2)).
  assert (Hc2' : calm w2') by exact Hc2.
  destruct (arrive w2') as [w3|] eqn:H3.
  2: { destruct (getUserSessions_unreached (rt_userId stored) w2' H3) as [msg Hq].
       run Hq. right; left. by rewrite (calm_unreached _ Hc2'). }
  destruct (calm_arrive _ _ Hc2' H3) as [Hs3 Hc3].
  run (getUserSessions_arrive (rt_userId stored) _ _ H3).
  rewrite Hs3. simpl.
  destruct (List.find _ _) as [m|] eqn:Hfind; simpl.
  2: { right; left. by rewrite Hs3. }
  destruct (arrive w3) as [w4|] eqn:H4.
  2: { destruct (deleteSession_unreached m.1 w3 H4) as [msg Hq].
       rewrite Hq. simpl. right; left. by rewrite (calm_unreached _ Hc3), Hs3. }
  destruct (calm_arrive _ _ Hc3 H4) as [Hs4 Hc4].
  rewrite (deleteSession_arrive m.1 _ _ H4). rewrite Hs4, Hs3. simpl.
  destruct (sessions (st w) !! m.1) eqn:Hm; simpl.
  - right; right. done.
  - right; left. by rewrite Hs4, Hs3.
Qed.

(** C9.  When the token is found and no other request changes the store
    during the call, [logout] deletes at most one session, and only a
    session of the owner of the token whose creation time differs from
    that of the token by strictly less than 5000 ms; when none of the
    owner's sessions is within that tolerance, no session is deleted. *)
Theorem logout_deletes_matching_session :
  ∀ (t : string) (w : World) (stored : RefreshToken),
    calm w →
    refreshTokens (st w) !! t = Some stored →
    let before := sessions (st w) in
    let after := sessions (st (logout t w).2) in
    (after = before
     ∨ ∃ (id : string) (row : Session),
         before !! id = Some row
         ∧ s_userId row = rt_userId stored
         ∧ Z.abs (s_createdAt row - rt_createdAt stored) < 5000
         ∧ after = delete id before)
    ∧ ((∀ (id : string) (row : Session),
          before !! id = Some row → s_userId row = rt_userId stored →
          ¬ Z.abs (s_createdAt row - rt_createdAt stored) < 5000) →
       after = before).
Proof.
  intros t w stored Hc Hstored. simpl.
  destruct (logout_calm t w Hc) as [-> | [-> | ->]]; simpl.
  1, 2: split; [by left | done].
  unfold logout_effect. rewrite Hstored. simpl.
  destruct (List.find _ _) as [m|] eqn:Hfind; simpl.
  2: split; [by left | done].
  apply find_activeSessions_Some in Hfind as (Hm & Huser & _ & Hwithin).
  split.
  - right. exists m.1, m.2. done.
  - intros Hnone. exfalso. by apply (Hnone m.1 m.2).
Qed.
End logout_props.

(** ** Refresh *)

Section refresh_props.
Context `{!Runtime}.

Lemma findUserById_unreached (id : string) (w : World) :
  arrive w = None →
  ∃ msg, authRepo.findUserById id w = (Throw (JsError msg), unreached w).
Proof. apply prisma_unreached. Qed.

Lemma rotateRefreshToken_unreached (old : string) (new : RefreshTokenData) (w : World) :
  arrive w = None →
  ∃ msg, authRepo.rotateRefreshToken old new w = (Throw (JsError msg), unreached w).
Proof.
  intros Ha. unfold authRepo.rotateRefreshToken, tryCatch, bind.
  match goal with
  | |- context [prisma ?q w] => destruct (prisma_unreached q w Ha) as [msg Hq]
  end.
  exists msg. by rewrite Hq.
Qed.

(** A token that is found, not expired and owned by an active user, but
    gone when the rotation runs. *)
Lemma refresh_consumed (t : string) (w w1 w2 w3 : World) (stored : RefreshToken)
    (owner : User) :
  arrive w = Some w1 →
  refreshTokens (st w1) !! t = Some stored →
  ¬ rt_expiresAt stored < clock (st w1) →
  arrive w1 = Some w2 →
  users (st w2) !! rt_userId stored = Some owner →
  u_deletedAt owner = None →
  u_isActive owner = true →
  app (st w2) = true →
  arrive (drawn w2) = Some w3 →
  refreshTokens (st w3) !! t = None →
  refresh t w
  = (Throw (UnauthorizedError "Refresh token already used" "INVALID_REFRESH_TOKEN"), w3).
Proof.
  intros H1 Hstored Hfresh H2 Howner Hkept Hactive Happ H3 Hgone.
  unfold refresh.
  run (findRefreshToken_arrive t _ _ H1). rewrite Hstored.
  unfold bind at 1, Date_now at 1.
  rewrite bool_decide_eq_false_2 by done.
  run (findUserById_arrive (rt_userId stored) _ _ H2).
  unfold Prisma.where_id. rewrite Howner, Hkept. simpl. rewrite Hactive. simpl.
  unfold bind at 1, signAccessToken at 1. rewrite Happ.
  unfold bind at 1, generateRefreshToken at 1.
  unfold getRefreshTokenExpiresAt, bind at 1, bind at 1, Date_now at 1, ret at 1.
  fold (drawn w2).
  run (rotateRefreshToken_arrive t _ _ _ H3). by rewrite Hgone.
Qed.

(** C1.  The rotation is all or nothing: on a store that answers, it
    reports [false] and changes nothing when the old row is gone, and it
    reports [true] exactly when it has replaced the old row by the new
    one; any other outcome leaves the state as it found it.  [refresh]
    returns a token pair only if the rotation reported success, and the
    refresh token it returns is the one the rotation stored in place of
    the old one.  When the old row is gone at rotation time, [refresh]
    fails with the Unauthorized error "Refresh token already used" and
    leaves the store as the rotation found it: no new token is issued. *)
Theorem refresh_rotation_all_or_nothing :
  (∀ (old : string) (new : RefreshTokenData) (w w1 : World),
     arrive w = Some w1 →
     (refreshTokens (st w1) !! old = None →
      authRepo.rotateRefreshToken old new w = (Ok false, w1))
     ∧ (∀ (r : Result bool) (w' : World),
          authRepo.rotateRefreshToken old new w = (r, w') →
          (r = Ok true
           ∧ is_Some (refreshTokens (st w1) !! old)
           ∧ refreshTokens (st w')
             = <[d_token new := rotated_row (st w1) new]>
                 (delete old (refreshTokens (st w1))))
          ∨ (r ≠ Ok true ∧ w' = w1)))
  ∧ (∀ (t : string) (w w' : World) (p : TokenPair),
       refresh t w = (Ok p, w') →
       ∃ (wr w3 : World) (new : RefreshTokenData),
         arrive wr = Some w3
         ∧ authRepo.rotateRefreshToken t new wr = (Ok true, w')
         ∧ d_token new = tp_refreshToken p
         ∧ is_Some (refreshTokens (st w3) !! t)
         ∧ refreshTokens (st w')
           = <[tp_refreshToken p := rotated_row (st w3) new]>
               (delete t (refreshTokens (st w3))))
  ∧ (∀ (t : string) (w w1 w2 w3 : World) (stored : RefreshToken) (owner : User),
       arrive w = Some w1 →
       refreshTokens (st w1) !! t = Some stored →
       ¬ rt_expiresAt stored < clock (st w1) →
       arrive w1 = Some w2 →
       users (st w2) !! rt_userId stored = Some owner →
       u_deletedAt owner = None →
       u_isActive owner = true →
       app (st w2) = true →
       arrive (drawn w2) = Some w3 →
       refreshTokens (st w3) !! t = None →
       refresh t w
       = (Throw (UnauthorizedError "Refresh token already used" "INVALID_REFRESH_TOKEN"),
          w3)).
Proof.
  split; [|split].
  - intros old new w w1 Ha. rewrite (rotateRefreshToken_arrive old new _ _ Ha).
    split; [by intros ->|].
    intros r w'. destruct (refreshTokens (st w1) !! old) as [row|] eqn:Hold.
    + destruct (delete old (refreshTokens (st w1)) !! d_token new) eqn:Hnew.
      * intros [= <- <-]. by right.
      * intros [= <- <-]. left. by eauto.
    + intros [= <- <-]. by right.
  - intros t w w' p. unfold refresh.
    destruct (arrive w) as [w1|] eqn:H1.
    2: { destruct (findRefreshToken_unreached t w H1) as [msg Hq]. by run Hq. }
    run (findRefreshToken_arrive t _ _ H1).
    destruct (refreshTokens (st w1) !! t) as [stored|] eqn:Hstored; [|done].
    unfold bind at 1, Date_now at 1.
    case_bool_decide as Hexp.
    { destruct (arrive w1) as [w2|] eqn:H2.
      - by run (deleteRefreshToken_arrive t _ _ H2).
      - destruct (deleteRefreshToken_unreached t w1 H2) as [msg Hq]. by run Hq. }
    destruct (arrive w1) as [w2|] eqn:H2.
    2: { destruct (findUserById_unreached (rt_userId stored) w1 H2) as [msg Hq].
         by run Hq. }
    run (findUserById_arrive (rt_userId stored) _ _ H2).
    unfold Prisma.where_id.
    destruct (users (st w2) !! rt_userId stored) as [owner|]; simpl; [|done].
    case_bool_decide; simpl; [|done].
    destruct (u_isActive owner); simpl; [|done].
    unfold bind at 1, signAccessToken at 1. destruct (app (st w2)); [|done].
    unfold bind at 1, generateRefreshToken at 1.
    unfold getRefreshTokenExpiresAt, bind at 1, bind at 1, Date_now at 1, ret at 1.
    fold (drawn w2).
    match goal with
    | |- context [authRepo.rotateRefreshToken t ?d] => set (new := d)
    end.
    destruct (arrive (drawn w2)) as [w3|] eqn:H3.
    2: { destruct (rotateRefreshToken_unreached t new _ H3) as [msg Hq]. by run Hq. }
    pose proof (rotateRefreshToken_arrive t new _ _ H3) as Hrot.
    destruct (refreshTokens (st w3) !! t) as [row|] eqn:Hold.
    2: { by run Hrot. }
    destruct (delete t (refreshTokens (st w3)) !! d_token new) eqn:Hnew.
    { by run Hrot. }
    run Hrot. intros [= <- <-]. exists (drawn w2), w3, new.
    repeat split; eauto.
  - intros. by eapply refresh_consumed.
Qed.

(** C6.  The three failures of [refresh] are told apart by their code or
    message.  A token the store does not have fails with "Invalid refresh
    token"; an expired token is deleted from the store and the call fails
    with "Refresh token expired" and code [REFRESH_TOKEN_EXPIRED]; a token
    consumed between its lookup and the rotation fails with "Refresh token
    already used".  No two of the three errors have the same code and
    message. *)
Theorem refresh_failures_distinguishable :
  (∀ (t : string) (w w1 : World),
     arrive w = Some w1 →
     refreshTokens (st w1) !! t = None →
     refresh t w
     = (Throw (UnauthorizedError "Invalid refresh token" "INVALID_REFRESH_TOKEN"), w1))
  ∧ (∀ (t : string) (w w1 w2 : World) (stored : RefreshToken),
       arrive w = Some w1 →
       refreshTokens (st w1) !! t = Some stored →
       rt_expiresAt stored < clock (st w1) →
       arrive w1 = Some w2 →
       ∃ w' : World,
         refresh t w
         = (Throw (UnauthorizedError "Refresh token expired" "REFRESH_TOKEN_EXPIRED"), w')
         ∧ refreshTokens (st w') = delete t (refreshTokens (st w2))
         ∧ refreshTokens (st w') !! t = None)
  ∧ (∀ (t : string) (w w1 w2 w3 : World) (stored : RefreshToken) (owner : User),
       arrive w = Some w1 →
       refreshTokens (st w1) !! t = Some stored →
       ¬ rt_expiresAt stored < clock (st w1) →
       arrive w1 = Some w2 →
       users (st w2) !! rt_userId stored = Some owner →
       u_deletedAt owner = None →
       u_isActive owner = true →
       app (st w2) = true →
       arrive (drawn w2) = Some w3 →
       refreshTokens (st w3) !! t = None →
       refresh t w
       = (Throw (UnauthorizedError "Refresh token already used" "INVALID_REFRESH_TOKEN"),
          w3))
  ∧ (let code_message (e : Error) := (error_code e, error_message e) in
     let invalid := UnauthorizedError "Invalid refresh token" "INVALID_REFRESH_TOKEN" in
     let expired := UnauthorizedError "Refresh token expired" "REFRESH_TOKEN_EXPIRED" in
     let reused := UnauthorizedError "Refresh token already used" "INVALID_REFRESH_TOKEN" in
     code_message invalid ≠ code_message expired
     ∧ code_message invalid ≠ code_message reused
     ∧ code_message expired ≠ code_message reused).
Proof.
  split; [|split; [|split]].
  - intros t w w1 H1 Hnone. unfold refresh.
    run (findRefreshToken_arrive t _ _ H1). by rewrite Hnone.
  - intros t w w1 w2 stored H1 Hstored Hexp H2.
    eexists. unfold refresh.
    run (findRefreshToken_arrive t _ _ H1). rewrite Hstored.
    unfold bind at 1, Date_now at 1. rewrite bool_decide_eq_true_2 by done.
    run (deleteRefreshToken_arrive t _ _ H2).
    split; [reflexivity|]. simpl. split; [done|]. apply lookup_delete_eq.
  - intros. by eapply refresh_consumed.
  - simpl. repeat split; discriminate.
Qed.
End refresh_props.

(** ** Password verification *)

Lemma prefix_append (p s : string) :
  String.prefix p s = true ↔ ∃ rest : string, s = p +:+ rest.
Proof.
  revert s. induction p as [|c p IH]; intros s.
  - destruct s; simpl; split; eauto.
  - destruct s as [|c' s]; simpl.
    + split; [done|]. by intros [rest ?].
    + destruct (ascii_dec c c') as [<-|Hne].
      * rewrite IH. split; intros [rest Hrest]; exists rest.
        -- by subst.
        -- change (String c s = String c (p +:+ rest)) in Hrest. congruence.
      * split; [done|]. intros [rest Hrest].
        change (String c' s = String c (p +:+ rest)) in Hrest. congruence.
Qed.

Lemma isBcryptHash_prefix (h : string) :
  isBcryptHash h = true ↔
  ∃ rest : string, h = "$2a$" +:+ rest ∨ h = "$2b$" +:+ rest ∨ h = "$2y$" +:+ rest.
Proof.
  unfold isBcryptHash, startsWith.
  rewrite !orb_true_iff, !prefix_append. split.
  - intros [[[rest ->] | [rest ->]] | [rest ->]]; exists rest; auto.
  - intros [rest [-> | [-> | ->]]]; eauto.
Qed.

Section password_props.
Context `{!Runtime}.

(** C3.  [verifyPassword] asks for a rehash exactly when the stored hash
    is a legacy one, that is, begins with [$2a$], [$2b$] or [$2y$], and
    the password matched it.  A password the legacy comparator accepts
    for a legacy hash gives [{valid: true, needsRehash: true}]; a password
    the modern comparator accepts for any other hash gives [{valid: true,
    needsRehash: false}]; a password the comparator of the hash's scheme
    rejects gives [{valid: false, needsRehash: false}]. *)
Theorem verifyPassword_rehash :
  (∀ pw h : string,
     needsRehash (verifyPassword pw h) = true ↔
     (∃ rest : string, h = "$2a$" +:+ rest ∨ h = "$2b$" +:+ rest ∨ h = "$2y$" +:+ rest)
     ∧ valid (verifyPassword pw h) = true)
  ∧ (∀ pw h : string,
       isBcryptHash h = true → bcrypt_compare pw h = true →
       verifyPassword pw h = mkVerifyResult true true)
  ∧ (∀ pw h : string,
       isBcryptHash h = false → argon2_verify h pw = true →
       verifyPassword pw h = mkVerifyResult true false)
  ∧ (∀ pw h : string,
       (if isBcryptHash h then bcrypt_compare pw h else argon2_verify h pw) = false →
       verifyPassword pw h = mkVerifyResult false false).
Proof.
  split; [|split; [|split]].
  - intros pw h. rewrite <- isBcryptHash_prefix. unfold verifyPassword.
    destruct (isBcryptHash h); simpl; intuition congruence.
  - intros pw h Hlegacy Hmatch. unfold verifyPassword. by rewrite Hlegacy, Hmatch.
  - intros pw h Hmodern Hmatch. unfold verifyPassword. by rewrite Hmodern, Hmatch.
  - intros pw h Hwrong. unfold verifyPassword.
    destruct (isBcryptHash h); by rewrite Hwrong.
Qed.
End password_props.

(** ** What a call can throw or return *)

Lemma throws_only_ret {A : Type} (φ : Error → Prop) (a : A) : throws_only φ (ret a).
Proof. by intros w w' e [=]. Qed.

Lemma throws_only_throw {A : Type} (φ : Error → Prop) (e : Error) :
  φ e → throws_only φ (@throw A e).
Proof. by intros He w w' e' [= <- _]. Qed.

Lemma throws_only_bind {A B : Type} (φ : Error → Prop) (m : M A) (k : A → M B) :
  throws_only φ m → (∀ a, throws_only φ (k a)) → throws_only φ (bind m k).
Proof.
  intros Hm Hk w w' e. unfold bind.
  destruct (m w) as [[a|e'] w1] eqn:Hmw.
  - apply Hk.
  - intros [= <- _]. by eapply Hm.
Qed.

Lemma throws_only_prisma {A : Type} (φ : Error → Prop) (q : Query A) :
  (∀ msg, φ (JsError msg)) →
  (∀ (s s' : State) (e : Error), q s = (Throw e, s') → φ e) →
  throws_only φ (prisma q).
Proof.
  intros Hfault Hq w w' e. unfold prisma.
  destruct (sched w) as [|step rest].
  - destruct (q (st w)) as [r s'] eqn:Hqs. intros [= -> _]. by eapply Hq.
  - destruct (fault step) as [msg|].
    + intros [= <- _]. apply Hfault.
    + destruct (q (interfere step (st w))) as [r s'] eqn:Hqs.
      intros [= -> _]. by eapply Hq.
Qed.

Lemma returns_only_ret {A : Type} (ψ : A → Prop) (a : A) : ψ a → returns_only ψ (ret a).
Proof. by intros Ha w w' a' [= <- _]. Qed.

Lemma returns_only_throw {A : Type} (ψ : A → Prop) (e : Error) :
  returns_only ψ (@throw A e).
Proof. by intros w w' a [=]. Qed.

Lemma returns_only_bind {A B : Type} (ψ : B → Prop) (m : M A) (k : A → M B) :
  (∀ a, returns_only ψ (k a)) → returns_only ψ (bind m k).
Proof.
  intros Hk w w' b. unfold bind. destruct (m w) as [[a|e] w1]; [apply Hk|done].
Qed.

Lemma throws_only_weaken {A : Type} (φ ψ : Error → Prop) (m : M A) :
  (∀ e, φ e → ψ e) → throws_only φ m → throws_only ψ m.
Proof. intros Himp Hm w w' e Hthrow. eapply Himp, Hm, Hthrow. Qed.

Lemma findFirst_Some {A : Type} (p : string * A → bool) (table : gmap string A)
    (row : string * A) :
  Prisma.findFirst p table = Some row → table !! row.1 = Some row.2 ∧ p row = true.
Proof.
  unfold Prisma.findFirst. intros Hfind. apply find_some in Hfind as [Hin Hp].
  split; [|done]. apply list_elem_of_In in Hin. destruct row.
  by apply elem_of_map_to_list.
Qed.

Lemma findFirst_None {A : Type} (p : string * A → bool) (table : gmap string A) :
  Prisma.findFirst p table = None ↔
  ∀ (id : string) (a : A), table !! id = Some a → p (id, a) = false.
Proof.
  unfold Prisma.findFirst. split.
  - intros Hfind id a Hrow. apply (find_none _ _ Hfind (id, a)).
    apply list_elem_of_In. by apply elem_of_map_to_list.
  - intros Hall. destruct (find p (map_to_list table)) as [[id a]|] eqn:Hfind; [|done].
    apply find_some in Hfind as [Hin Hp].
    apply list_elem_of_In, elem_of_map_to_list in Hin.
    rewrite (Hall _ _ Hin) in Hp. done.
Qed.

Section issue.
Context `{!Runtime}.

Lemma hashPassword_throws (φ : Error → Prop) (password : string) :
  throws_only φ (hashPassword password).
Proof. by intros w w' e [=]. Qed.

Lemma signAccessToken_throws (userId : string) (role : UserRole) :
  throws_only store_failure (signAccessToken userId role).
Proof.
  intros w w' e. unfold signAccessToken. destruct (app (st w)); [done|].
  by intros [= <- _].
Qed.

Lemma generateRefreshToken_throws (φ : Error → Prop) :
  throws_only φ generateRefreshToken.
Proof. by intros w w' e [=]. Qed.

Lemma getRefreshTokenExpiresAt_throws (φ : Error → Prop) :
  throws_only φ getRefreshTokenExpiresAt.
Proof. by intros w w' e [=]. Qed.

Lemma createUser_throws (email password firstName lastName : string) :
  throws_only store_failure (authRepo.createUser email password firstName lastName).
Proof.
  apply throws_only_prisma; [done|]. intros s s' e. unfold Prisma.user_create.
  destruct (_ || _); [|done]. by intros [= <- _].
Qed.

Lemma createRefreshToken_throws (data : RefreshTokenData) :
  throws_only store_failure (authRepo.createRefreshToken data).
Proof.
  apply throws_only_prisma; [done|]. intros s s' e. unfold Prisma.refreshToken_create.
  destruct (refreshTokens s !! d_token data); [|done]. by intros [= <- _].
Qed.

Lemma createSession_throws (userId : string) (deviceInfo ipAddress : option string)
    (expiresAt : Z) :
  throws_only store_failure
    (sessionRepository.createSession userId deviceInfo ipAddress expiresAt).
Proof.
  apply throws_only_prisma; [done|]. intros s s' e. unfold Prisma.session_create.
  destruct (sessions s !! _); [|done]. by intros [= <- _].
Qed.

Lemma user_update_throws (id : string) (data : User → User) :
  throws_only store_failure (prisma (Prisma.user_update id data)).
Proof.
  apply throws_only_prisma; [done|]. intros s s' e. unfold Prisma.user_update.
  destruct (users s !! id); [done|]. by intros [= <- _].
Qed.
End issue.

Create HintDb throws.

#[local] Hint Resolve throws_only_ret hashPassword_throws signAccessToken_throws
  generateRefreshToken_throws getRefreshTokenExpiresAt_throws createUser_throws
  createRefreshToken_throws createSession_throws user_update_throws : throws.

(** ** Registration *)

Section register_props.
Context `{!Runtime}.

Lemma findUserByEmail_unreached (email : string) (w : World) :
  arrive w = None →
  ∃ msg, authRepo.findUserByEmail email w = (Throw (JsError msg), unreached w).
Proof. apply prisma_unreached. Qed.

(** C7.  [register] fails with a [ConflictError] of code
    [EMAIL_ALREADY_EXISTS] if and only if the store, when it answers the
    lookup, holds a user with this email that is not soft-deleted.  A user
    that is soft-deleted does not cause the conflict.  On the conflict
    path the world is left as the lookup found it: no user is created and
    no token or session is stored. *)
Theorem register_conflict :
  ∀ (input : RegisterInput) (deviceInfo ipAddress : option string) (w : World),
    let taken (s : State) :=
      ∃ (id : string) (u : User),
        users s !! id = Some u ∧ u_email u = ri_email input ∧ u_deletedAt u = None in
    ((∃ (message : string) (w' : World),
        register input deviceInfo ipAddress w
        = (Throw (ConflictError message "EMAIL_ALREADY_EXISTS"), w'))
     ↔ ∃ w1 : World, arrive w = Some w1 ∧ taken (st w1))
    ∧ (∀ w1 : World,
         arrive w = Some w1 → taken (st w1) →
         register input deviceInfo ipAddress w
         = (Throw (ConflictError "Email already registered" "EMAIL_ALREADY_EXISTS"), w1))
    ∧ (∀ w1 : World,
         arrive w = Some w1 →
         (∀ (id : string) (u : User),
            users (st w1) !! id = Some u → u_email u = ri_email input →
            u_deletedAt u ≠ None) →
         ∀ (message code : string) (w' : World),
           register input deviceInfo ipAddress w
           ≠ (Throw (ConflictError message code), w')).
Proof.
  intros input deviceInfo ipAddress w taken.
  assert (Htail : ∀ w1 : World,
    arrive w = Some w1 →
    Prisma.findFirst (Prisma.where_email (ri_email input)) (users (st w1)) = None →
    ∀ (e : Error) (w' : World),
      register input deviceInfo ipAddress w = (Throw e, w') → store_failure e).
  { intros w1 H1 Hnone e w'. unfold register.
    run (findUserByEmail_arrive (ri_email input) _ _ H1). rewrite Hnone.
    clear H1 Hnone. revert w1 w' e.
    match goal with
    | |- ∀ (w1 w' : World) (e : Error), ?m w1 = _ → _ =>
        change (throws_only store_failure m)
    end.
    repeat (apply throws_only_bind; [by eauto with throws | intros ?]).
    apply throws_only_ret. }
  assert (Hfound : ∀ w1 : World,
    arrive w = Some w1 → taken (st w1) →
    register input deviceInfo ipAddress w
    = (Throw (ConflictError "Email already registered" "EMAIL_ALREADY_EXISTS"), w1)).
  { intros w1 H1 (id & u & Hrow & Hemail & Hkept). unfold register.
    run (findUserByEmail_arrive (ri_email input) _ _ H1).
    destruct (Prisma.findFirst _ _) as [row|] eqn:Hfind; [done|].
    rewrite findFirst_None in Hfind. specialize (Hfind id u Hrow).
    unfold Prisma.where_email in Hfind. simpl in Hfind.
    rewrite !bool_decide_eq_true_2 in Hfind by done. done. }
  assert (Hsome : ∀ (s : State) (row : string * User),
    Prisma.findFirst (Prisma.where_email (ri_email input)) (users s) = Some row →
    taken s).
  { intros s row Hfind. apply findFirst_Some in Hfind as [Hrow Hp].
    unfold Prisma.where_email in Hp. apply andb_true_iff in Hp as [He Hd].
    apply bool_decide_eq_true in He, Hd. by exists row.1, row.2. }
  split; [split|split].
  - intros (message & w' & Hthrow).
    destruct (arrive w) as [w1|] eqn:H1.
    + exists w1. split; [done|].
      destruct (Prisma.findFirst (Prisma.where_email (ri_email input)) (users (st w1)))
        as [row|] eqn:Hfind.
      * by apply (Hsome _ row).
      * destruct (Htail w1 eq_refl Hfind _ _ Hthrow).
    + destruct (findUserByEmail_unreached (ri_email input) w H1) as [msg Hq].
      revert Hthrow. unfold register. by run Hq.
  - intros (w1 & H1 & Htaken). eexists _, _. by apply Hfound.
  - exact Hfound.
  - intros w1 H1 Hdeleted message code w' Hthrow.
    destruct (Prisma.findFirst (Prisma.where_email (ri_email input)) (users (st w1)))
      as [row|] eqn:Hfind.
    + destruct (Hsome _ _ Hfind) as (id & u & Hrow & Hemail & Hkept).
      by apply (Hdeleted id u).
    + exact (Htail w1 H1 Hfind _ _ Hthrow).
Qed.
End register_props.

(** ** Login *)

Lemma throws_store_or {A : Type} (φ : Error → Prop) (m : M A) :
  throws_only store_failure m → throws_only (fun e => store_failure e ∨ φ e) m.
Proof. apply throws_only_weaken. by left. Qed.

Lemma Date_now_throws (φ : Error → Prop) : throws_only φ Date_now.
Proof. by intros w w' e [=]. Qed.

#[local] Hint Resolve Date_now_throws : throws.

(** Every duration of the table is a lockout. *)
Lemma getLockoutDuration_nonzero (n d : Z) : getLockoutDuration n = Some d → d ≠ 0.
Proof.
  unfold getLockoutDuration; simpl. repeat case_bool_decide; intros [= <-]; done.
Qed.

Section login_props.
Context `{!Runtime}.

Lemma user_update_quiet (id : string) (data : User → User) (s : State) (u : User) :
  users s !! id = Some u →
  prisma (Prisma.user_update id data) (mkWorld s [])
  = (Ok tt, mkWorld (with_users (insert id (Prisma.stamp (clock s) (data u))) s) []).
Proof.
  intros Hrow. rewrite prisma_quiet. unfold Prisma.user_update. by rewrite Hrow.
Qed.

(** A wrong password for an account that is active and not locked, when
    the two writes that follow reach the store and no other request
    interferes: the counter is incremented, the lockout of the new count
    is stored, and the generic error is thrown. *)
Lemma login_wrong_password (input : LoginInput) (deviceInfo ipAddress : option string)
    (w : World) (s : State) (id : string) (u : User) :
  arrive w = Some (mkWorld s []) →
  Prisma.findFirst (Prisma.where_email (li_email input)) (users s) = Some (id, u) →
  u_isActive u = true →
  isLocked (u_lockedUntil u) (clock s) = false →
  valid (verifyPassword (li_password input) (u_password u)) = false →
  ∃ (s' : State) (u' : User),
    login input deviceInfo ipAddress w = (Throw invalidCredentials, mkWorld s' [])
    ∧ users s' !! id = Some u'
    ∧ u_failedLoginAttempts u' = u_failedLoginAttempts u + 1
    ∧ u_lockedUntil u'
      = match getLockoutDuration (u_failedLoginAttempts u + 1) with
        | Some d => Some (clock s + d)
        | None => u_lockedUntil u
        end
    ∧ only_user_changed id s s'.
Proof.
  intros H1 Hfind Hactive Hunlocked Hwrong.
  pose proof (findFirst_Some _ _ _ Hfind) as [Hrow _]. simpl in Hrow.
  unfold login.
  run (findUserByEmail_arrive (li_email input) _ _ H1). rewrite Hfind. simpl.
  rewrite Hactive. simpl. unfold bind at 1, Date_now at 1. simpl.
  rewrite Hunlocked, Hwrong. simpl.
  unfold authRepo.incrementFailedAttempts, authRepo.setAccountLock.
  run (user_update_quiet id _ s u Hrow).
  destruct (getLockoutDuration (u_failedLoginAttempts u + 1)) as [d|] eqn:Hd.
  - rewrite bool_decide_eq_false_2 by (by eapply getLockoutDuration_nonzero).
    unfold bind at 1, bind at 1, Date_now at 1.
    erewrite user_update_quiet by (simpl; apply lookup_insert_eq). simpl.
    eexists _, _. split; [reflexivity|]. simpl. rewrite lookup_insert_eq.
    repeat split; simpl; try done.
    intros id' Hne. by rewrite !lookup_insert_ne.
  - unfold bind at 1, ret at 1. simpl.
    eexists _, _. split; [reflexivity|]. simpl. rewrite lookup_insert_eq.
    repeat split; simpl; try done.
    intros id' Hne. by rewrite !lookup_insert_ne.
Qed.

(** [login] returns only for an account that the lookup found, that is
    active and not locked, and whose password verified. *)
Lemma login_ok_verified (input : LoginInput) (deviceInfo ipAddress : option string)
    (w w' : World) (r : AuthResult) :
  login input deviceInfo ipAddress w = (Ok r, w') →
  ∃ (w1 : World) (found : string * User),
    arrive w = Some w1
    ∧ Prisma.findFirst (Prisma.where_email (li_email input)) (users (st w1)) = Some found
    ∧ u_isActive found.2 = true
    ∧ isLocked (u_lockedUntil found.2) (clock (st w1)) = false
    ∧ valid (verifyPassword (li_password input) (u_password found.2)) = true.
Proof.
  unfold login.
  destruct (arrive w) as [w1|] eqn:H1.
  2: { destruct (findUserByEmail_unreached (li_email input) w H1) as [msg Hq]. by run Hq. }
  run (findUserByEmail_arrive (li_email input) _ _ H1).
  destruct (Prisma.findFirst _ _) as [found|] eqn:Hfind; [|done].
  destruct (u_isActive found.2) eqn:Hactive; simpl; [|done].
  unfold bind at 1, Date_now at 1.
  destruct (isLocked _ _) eqn:Hlocked; [done|].
  destruct (valid _) eqn:Hvalid; simpl.
  { intros _. exists w1, found. done. }
  intros Hok. exfalso. revert Hok.
  match goal with
  | |- ?m w1 = _ → _ =>
      assert (Hnever : returns_only (fun _ : AuthResult => False) m)
  end.
  { repeat (apply returns_only_bind; intros ?). apply returns_only_throw. }
  apply Hnever.
Qed.

Lemma login_throws (input : LoginInput) (deviceInfo ipAddress : option string) :
  throws_only (fun e => store_failure e ∨ e = invalidCredentials)
    (login input deviceInfo ipAddress).
Proof.
  unfold login, authRepo.findUserByEmail, authRepo.incrementFailedAttempts,
    authRepo.setAccountLock, authRepo.resetFailedAttempts, authRepo.updateUserPassword.
  repeat first
    [ apply throws_only_ret
    | apply throws_only_throw; by right
    | apply throws_store_or; solve [eauto with throws]
    | apply throws_store_or; apply throws_only_prisma; [done|by intros ? ? ? [=]]
    | apply throws_only_bind; [|intros ?]
    | match goal with
      | |- throws_only _ (match ?x with _ => _ end) => destruct x
      end ].
Qed.

(** C2.  Every application error [login] throws is the Unauthorized error
    with code [INVALID_CREDENTIALS] and message "Invalid email or
    password", and [login] returns only for an account that is found,
    active, not locked and whose password verified.  That error is what
    [login] throws when no user has the email,
    when the user with the email is soft-deleted, when the account is
    disabled, when the account is locked, and when the password is wrong
    for an account that is active and not locked (the two writes that
    follow the check reaching the store). *)
Theorem login_failures_indistinguishable :
  ∀ (input : LoginInput) (deviceInfo ipAddress : option string) (w w1 : World),
    let lookup := Prisma.findFirst (Prisma.where_email (li_email input))
                    (users (st w1)) in
    let generic := AppError "UnauthorizedError" "INVALID_CREDENTIALS"
                     "Invalid email or password" 401 in
    (∀ (e : Error) (w' : World),
       login input deviceInfo ipAddress w = (Throw e, w') →
       (∃ name code message status, e = AppError name code message status) →
       e = generic)
    ∧ (∀ (r : AuthResult) (w' : World),
         login input deviceInfo ipAddress w = (Ok r, w') →
         ∃ (w0 : World) (found : string * User),
           arrive w = Some w0
           ∧ Prisma.findFirst (Prisma.where_email (li_email input)) (users (st w0))
             = Some found
           ∧ u_isActive found.2 = true
           ∧ isLocked (u_lockedUntil found.2) (clock (st w0)) = false
           ∧ valid (verifyPassword (li_password input) (u_password found.2)) = true)
    ∧ (arrive w = Some w1 →
       ((∀ (id : string) (u : User),
           users (st w1) !! id = Some u → u_email u ≠ li_email input) →
        login input deviceInfo ipAddress w = (Throw generic, w1))
       ∧ ((∀ (id : string) (u : User),
             users (st w1) !! id = Some u → u_email u = li_email input →
             u_deletedAt u ≠ None) →
          login input deviceInfo ipAddress w = (Throw generic, w1))
       ∧ (∀ (id : string) (u : User),
            lookup = Some (id, u) → u_isActive u = false →
            login input deviceInfo ipAddress w = (Throw generic, w1))
       ∧ (∀ (id : string) (u : User) (until : Z),
            lookup = Some (id, u) → u_lockedUntil u = Some until →
            clock (st w1) < until →
            login input deviceInfo ipAddress w = (Throw generic, w1))
       ∧ (∀ (id : string) (u : User),
            lookup = Some (id, u) → u_isActive u = true →
            isLocked (u_lockedUntil u) (clock (st w1)) = false →
            valid (verifyPassword (li_password input) (u_password u)) = false →
            sched w1 = [] →
            ∃ w' : World, login input deviceInfo ipAddress w = (Throw generic, w'))).
Proof.
  intros input deviceInfo ipAddress w w1 lookup generic.
  split.
  { intros e w' Hthrow (name & code & message & status & ->).
    by destruct (login_throws _ _ _ _ _ _ Hthrow) as [[]|?]. }
  split.
  { intros r w'. apply login_ok_verified. }
  intros H1.
  assert (Hnone : lookup = None →
                  login input deviceInfo ipAddress w = (Throw generic, w1)).
  { intros Hlookup. unfold login.
    run (findUserByEmail_arrive (li_email input) _ _ H1).
    fold lookup. by rewrite Hlookup. }
  split; [|split; [|split; [|split]]].
  - intros Hfree. apply Hnone. apply findFirst_None. intros id u Hrow.
    unfold Prisma.where_email; simpl.
    rewrite (bool_decide_eq_false_2 _ (Hfree id u Hrow)). done.
  - intros Hdeleted. apply Hnone. apply findFirst_None. intros id u Hrow.
    unfold Prisma.where_email; simpl. case_bool_decide as Hemail; [|done].
    rewrite (bool_decide_eq_false_2 _ (Hdeleted id u Hrow Hemail)). done.
  - intros id u Hlookup Hdisabled. unfold login.
    run (findUserByEmail_arrive (li_email input) _ _ H1).
    fold lookup. rewrite Hlookup. simpl. by rewrite Hdisabled.
  - intros id u until Hlookup Hlock Hfuture. unfold login.
    run (findUserByEmail_arrive (li_email input) _ _ H1).
    fold lookup. rewrite Hlookup. simpl.
    destruct (u_isActive u); [|done]. simpl.
    unfold bind at 1, Date_now at 1. rewrite Hlock. simpl.
    by rewrite bool_decide_eq_true_2.
  - intros id u Hlookup Hactive Hunlocked Hwrong Hquiet.
    destruct w1 as [s1 l]. simpl in *. subst l.
    destruct (login_wrong_password input deviceInfo ipAddress w s1 id u)
      as (s' & u' & Hlogin & _); try done.
    by exists (mkWorld s' []).
Qed.
End login_props.

(** ** The failed-attempt counter and the lock *)

#[global] Instance no_reset_refl : Reflexive no_reset.
Proof. intros s id u Hrow. exists u. by repeat split. Qed.

#[global] Instance no_reset_trans : Transitive no_reset.
Proof.
  intros s1 s2 s3 H12 H23 id u Hrow.
  destruct (H12 id u Hrow) as (u2 & Hrow2 & Hle2 & Hlock2).
  destruct (H23 id u2 Hrow2) as (u3 & Hrow3 & Hle3 & Hlock3).
  exists u3. repeat split; [done|lia|auto].
Qed.

Lemma no_reset_same_users (s s' : State) : users s' = users s → no_reset s s'.
Proof. intros Heq id u Hrow. exists u. rewrite Heq. by repeat split. Qed.

Lemma steps_ret {A : Type} (I : State → State → Prop) `{!Reflexive I} (a : A) :
  steps I (ret a).
Proof. intros s. by exists s. Qed.

Lemma steps_throw {A : Type} (I : State → State → Prop) `{!Reflexive I} (e : Error) :
  steps I (@throw A e).
Proof. intros s. by exists s. Qed.

Lemma steps_bind {A B : Type} (I : State → State → Prop) `{!Transitive I}
    (m : M A) (k : A → M B) :
  steps I m → (∀ a, steps I (k a)) → steps I (bind m k).
Proof.
  intros Hm Hk s. destruct (Hm s) as (s1 & Hs1 & HI1). unfold bind.
  destruct (m (mkWorld s [])) as [[a|e] w1]; simpl in Hs1; subst w1.
  - destruct (Hk a s1) as (s2 & Hs2 & HI2). exists s2. split; [done|].
    by transitivity s1.
  - by exists s1.
Qed.

Lemma steps_tryCatch {A : Type} (I : State → State → Prop) `{!Transitive I}
    (m : M A) (handler : Error → M A) :
  steps I m → (∀ e, steps I (handler e)) → steps I (tryCatch m handler).
Proof.
  intros Hm Hh s. destruct (Hm s) as (s1 & Hs1 & HI1). unfold tryCatch.
  destruct (m (mkWorld s [])) as [[a|e] w1]; simpl in Hs1; subst w1.
  - by exists s1.
  - destruct (Hh e s1) as (s2 & Hs2 & HI2). exists s2. split; [done|].
    by transitivity s1.
Qed.

Lemma steps_prisma {A : Type} (I : State → State → Prop) (q : Query A) :
  (∀ s, I s (q s).2) → steps I (prisma q).
Proof. intros Hq s. exists (q s).2. rewrite prisma_quiet. by split. Qed.

Lemma steps_pure {A : Type} (I : State → State → Prop) `{!Reflexive I} (m : M A) :
  (∀ w, (m w).2 = w) → steps I m.
Proof. intros Hm s. exists s. by rewrite Hm. Qed.

Create HintDb steps.

Section counter.
Context `{!Runtime}.

Lemma no_reset_next_entropy (s : State) : no_reset s (next_entropy s).
Proof. by apply no_reset_same_users. Qed.

(** An update of a user that neither lowers the counter nor clears the
    lock. *)
Lemma user_update_no_reset (id : string) (data : User → User) :
  (∀ u, u_failedLoginAttempts u ≤ u_failedLoginAttempts (data u)
        ∧ (is_Some (u_lockedUntil u) → is_Some (u_lockedUntil (data u)))) →
  steps no_reset (prisma (Prisma.user_update id data)).
Proof.
  intros Hdata. apply steps_prisma. intros s. unfold Prisma.user_update.
  destruct (users s !! id) as [u|] eqn:Hrow; simpl; [|reflexivity].
  intros id' u' Hrow'. destruct (decide (id' = id)) as [->|Hne].
  - rewrite Hrow in Hrow'. injection Hrow' as <-.
    eexists. simpl. rewrite lookup_insert_eq. split; [done|]. apply Hdata.
  - exists u'. simpl. rewrite lookup_insert_ne by done. by repeat split.
Qed.

Lemma incrementFailedAttempts_steps (userId : string) :
  steps no_reset (authRepo.incrementFailedAttempts userId).
Proof. apply user_update_no_reset. intros u; simpl. split; [lia|done]. Qed.

Lemma setAccountLock_steps (userId : string) (lockedUntil : Z) :
  steps no_reset (authRepo.setAccountLock userId lockedUntil).
Proof. apply user_update_no_reset. intros u; simpl. split; [lia|eauto]. Qed.

Lemma updateUserPassword_steps (userId hash : string) :
  steps no_reset (authRepo.updateUserPassword userId hash).
Proof. apply user_update_no_reset. intros u; simpl. split; [lia|done]. Qed.

Lemma createUser_steps (email password firstName lastName : string) :
  steps no_reset (authRepo.createUser email password firstName lastName).
Proof.
  apply steps_prisma. intros s. unfold Prisma.user_create.
  destruct (bool_decide (is_Some (users s !! uuidv4 (entropy s)))) eqn:Hid; simpl;
    [reflexivity|].
  destruct (bool_decide (is_Some (Prisma.findFirst _ _))); simpl; [reflexivity|].
  apply bool_decide_eq_false in Hid.
  intros id u Hrow. exists u. simpl. rewrite lookup_insert_ne; [by repeat split|].
  intros <-. apply Hid. by rewrite Hrow.
Qed.

(** The calls that leave the table of users alone. *)
Lemma steps_same_users {A : Type} (q : Query A) :
  (∀ s, users (q s).2 = users s) → steps no_reset (prisma q).
Proof. intros Hq. apply steps_prisma. intros s. by apply no_reset_same_users. Qed.

Lemma findUserByEmail_steps (email : string) :
  steps no_reset (authRepo.findUserByEmail email).
Proof. by apply steps_same_users. Qed.

Lemma findUserById_steps (id : string) : steps no_reset (authRepo.findUserById id).
Proof. by apply steps_same_users. Qed.

Lemma findRefreshToken_steps (t : string) : steps no_reset (authRepo.findRefreshToken t).
Proof. by apply steps_same_users. Qed.

Lemma createRefreshToken_steps (data : RefreshTokenData) :
  steps no_reset (authRepo.createRefreshToken data).
Proof.
  apply steps_same_users. intros s. unfold Prisma.refreshToken_create.
  by destruct (refreshTokens s !! d_token data).
Qed.

Lemma deleteRefreshToken_steps (t : string) :
  steps no_reset (authRepo.deleteRefreshToken t).
Proof.
  apply steps_tryCatch; [apply _| |].
  - apply steps_bind; [apply _| |intros; apply steps_ret; apply _].
    apply steps_same_users. intros s. unfold Prisma.refreshToken_delete.
    by destruct (refreshTokens s !! t).
  - intros e. destruct (isRecordNotFound e); [apply steps_ret|apply steps_throw]; apply _.
Qed.

Lemma rotateRefreshToken_steps (old : string) (new : RefreshTokenData) :
  steps no_reset (authRepo.rotateRefreshToken old new).
Proof.
  apply steps_tryCatch; [apply _| |].
  - apply steps_bind; [apply _| |intros; apply steps_ret; apply _].
    apply steps_same_users. intros s.
    unfold transaction, Prisma.refreshToken_delete, Prisma.refreshToken_create.
    destruct (refreshTokens s !! old); simpl; [|done].
    by destruct (delete old (refreshTokens s) !! d_token new).
  - intros e. destruct (isRecordNotFound e); [apply steps_ret|apply steps_throw]; apply _.
Qed.

Lemma deleteRefreshTokensByUserId_steps (userId : string) :
  steps no_reset (authRepo.deleteRefreshTokensByUserId userId).
Proof. by apply steps_same_users. Qed.

Lemma createSession_steps (userId : string) (deviceInfo ipAddress : option string)
    (expiresAt : Z) :
  steps no_reset (sessionRepository.createSession userId deviceInfo ipAddress expiresAt).
Proof.
  apply steps_same_users. intros s. unfold Prisma.session_create.
  by destruct (sessions s !! uuidv4 (entropy s)).
Qed.

Lemma getUserSessions_steps (userId : string) :
  steps no_reset (sessionRepository.getUserSessions userId).
Proof.
  apply steps_bind; [apply _| |intros now].
  - by apply steps_pure; [apply _|].
  - by apply steps_same_users.
Qed.

Lemma deleteSession_steps (id : string) :
  steps no_reset (sessionRepository.deleteSession id).
Proof.
  apply steps_bind; [apply _| |intros; apply steps_ret; apply _].
  apply steps_same_users. intros s. unfold Prisma.session_delete.
  by destruct (sessions s !! id).
Qed.

Lemma deleteAllUserSessions_steps (userId : string) :
  steps no_reset (sessionRepository.deleteAllUserSessions userId).
Proof. by apply steps_same_users. Qed.

Lemma hashPassword_steps (password : string) : steps no_reset (hashPassword password).
Proof. intros s. eexists. split; [reflexivity|]. apply no_reset_next_entropy. Qed.

Lemma generateRefreshToken_steps : steps no_reset generateRefreshToken.
Proof. intros s. eexists. split; [reflexivity|]. apply no_reset_next_entropy. Qed.

Lemma signAccessToken_steps (userId : string) (role : UserRole) :
  steps no_reset (signAccessToken userId role).
Proof.
  apply steps_pure; [apply _|]. intros w. unfold signAccessToken.
  by destruct (app (st w)).
Qed.

Lemma getRefreshTokenExpiresAt_steps : steps no_reset getRefreshTokenExpiresAt.
Proof. by apply steps_pure; [apply _|]. Qed.

Lemma Date_now_steps : steps no_reset Date_now.
Proof. by apply steps_pure; [apply _|]. Qed.
End counter.

#[local] Hint Resolve incrementFailedAttempts_steps setAccountLock_steps
  updateUserPassword_steps createUser_steps findUserByEmail_steps findUserById_steps
  findRefreshToken_steps createRefreshToken_steps deleteRefreshToken_steps
  rotateRefreshToken_steps deleteRefreshTokensByUserId_steps createSession_steps
  getUserSessions_steps deleteSession_steps deleteAllUserSessions_steps
  hashPassword_steps generateRefreshToken_steps signAccessToken_steps
  getRefreshTokenExpiresAt_steps Date_now_steps : steps.

(** [steps_go] composes the facts about the calls along the code of a
    function. *)
Ltac steps_go :=
  repeat first
    [ apply steps_ret; apply _
    | apply steps_throw; apply _
    | solve [eauto with steps]
    | apply steps_bind; [apply _| |intros ?]
    | apply steps_tryCatch; [apply _| |intros ?]
    | match goal with
      | |- steps _ (match ?x with _ => _ end) => destruct x
      end ].

Section counter_props.
Context `{!Runtime}.

Lemma getLockoutDuration_from_five (n : Z) :
  5 ≤ n →
  ∃ previous renewed : Z,
    getLockoutDuration n = Some previous
    ∧ getLockoutDuration (n + 1) = Some renewed
    ∧ previous ≤ renewed.
Proof.
  intros Hn. unfold getLockoutDuration; simpl.
  repeat case_bool_decide; try lia; eexists _, _; repeat split; lia.
Qed.

(** C10.  The counter of failed attempts and the lock are reset only by a
    login whose password verification succeeds: a login that does not get
    that far, and every registration, refresh, logout, logout of all
    sessions and read of the current user, leaves every counter at least as high as it was and clears
    no lock (the requests running alone).  The expiry of a lock resets
    nothing: for an account with at least five failed attempts whose lock
    has lapsed, the next login with a wrong password raises the counter by
    one and stores a lock that starts now and lasts at least as long as
    the lockout for the previous count. *)
Theorem counter_reset_only_on_verified_login :
  (∀ (input : LoginInput) (deviceInfo ipAddress : option string) (s : State),
     (∀ user : string * User,
        Prisma.findFirst (Prisma.where_email (li_email input)) (users s) = Some user →
        ¬ (u_isActive user.2 = true
           ∧ isLocked (u_lockedUntil user.2) (clock s) = false
           ∧ valid (verifyPassword (li_password input) (u_password user.2)) = true)) →
     ∃ s' : State,
       (login input deviceInfo ipAddress (mkWorld s [])).2 = mkWorld s' []
       ∧ no_reset s s')
  ∧ (∀ (input : RegisterInput) (deviceInfo ipAddress : option string),
       steps no_reset (register input deviceInfo ipAddress))
  ∧ (∀ t : string, steps no_reset (refresh t))
  ∧ (∀ t : string, steps no_reset (logout t))
  ∧ (∀ userId : string, steps no_reset (logoutAllSessions userId))
  ∧ (∀ userId : string, steps no_reset (getCurrentUser userId))
  ∧ (∀ (input : LoginInput) (deviceInfo ipAddress : option string) (s : State)
       (id : string) (u : User) (until : Z),
       Prisma.findFirst (Prisma.where_email (li_email input)) (users s) = Some (id, u) →
       u_isActive u = true →
       u_lockedUntil u = Some until →
       until ≤ clock s →
       5 ≤ u_failedLoginAttempts u →
       valid (verifyPassword (li_password input) (u_password u)) = false →
       ∃ (s' : State) (u' : User) (previous renewed : Z),
         login input deviceInfo ipAddress (mkWorld s [])
         = (Throw invalidCredentials, mkWorld s' [])
         ∧ users s' !! id = Some u'
         ∧ u_failedLoginAttempts u' = u_failedLoginAttempts u + 1
         ∧ getLockoutDuration (u_failedLoginAttempts u) = Some previous
         ∧ getLockoutDuration (u_failedLoginAttempts u + 1) = Some renewed
         ∧ previous ≤ renewed
         ∧ u_lockedUntil u' = Some (clock s + renewed)).
Proof.
  split; [|split; [|split; [|split; [|split; [|split]]]]].
  - intros input deviceInfo ipAddress s Hunverified. unfold login.
    run (findUserByEmail_arrive (li_email input) _ _ (arrive_nil s)).
    destruct (Prisma.findFirst _ _) as [user|] eqn:Hfind; [|by exists s].
    specialize (Hunverified user eq_refl).
    destruct (u_isActive user.2); simpl; [|by exists s].
    unfold bind at 1, Date_now at 1. simpl.
    destruct (isLocked _ _); simpl; [by exists s|].
    destruct (valid _); simpl; [by destruct Hunverified|].
    refine ((_ : steps no_reset _) s). steps_go.
  - intros. unfold register. steps_go.
  - intros. unfold refresh. steps_go.
  - intros. unfold logout. steps_go.
  - intros. unfold logoutAllSessions. steps_go.
  - intros. unfold getCurrentUser. steps_go.
  - intros input deviceInfo ipAddress s id u until Hfind Hactive Hlock Hlapsed Hfive Hwrong.
    destruct (getLockoutDuration_from_five _ Hfive) as (previous & renewed & Hp & Hr & Hle).
    destruct (login_wrong_password input deviceInfo ipAddress (mkWorld s []) s id u)
      as (s' & u' & Hlogin & Hrow & Hcount & Hnew & _); try done.
    { rewrite Hlock. simpl. apply bool_decide_eq_false_2. lia. }
    exists s', u', previous, renewed. rewrite Hr in Hnew. done.
Qed.
End counter_props.

(** ** Registration followed by login *)

Lemma findFirst_insert {A : Type} (p : string * A → bool) (table : gmap string A)
    (id : string) (a : A) :
  (∀ (id' : string) (a' : A), table !! id' = Some a' → p (id', a') = false) →
  p (id, a) = true →
  Prisma.findFirst p (<[id := a]> table) = Some (id, a).
Proof.
  intros Hothers Hp.
  destruct (Prisma.findFirst p (<[id := a]> table)) as [[id' a']|] eqn:Hfind.
  - apply findFirst_Some in Hfind as [Hrow Hp']. simpl in Hrow.
    destruct (decide (id' = id)) as [->|Hne].
    + rewrite lookup_insert_eq in Hrow. congruence.
    + rewrite lookup_insert_ne in Hrow by done.
      rewrite (Hothers _ _ Hrow) in Hp'. done.
  - rewrite findFirst_None in Hfind. specialize (Hfind id a).
    rewrite lookup_insert_eq in Hfind. rewrite Hfind in Hp; done.
Qed.

Section round_trip.
Context `{!Runtime}.

Lemma sanitizeUser_no_password (user : string * User) :
  sanitizeUser user !! "password" = None.
Proof.
  unfold sanitizeUser.
  rewrite !lookup_insert_ne by done. rewrite !lookup_delete_ne by done.
  apply lookup_delete_eq.
Qed.

Lemma createUser_quiet (email password firstName lastName : string) (s : State) :
  users s !! uuidv4 (entropy s) = None →
  (∀ (id : string) (u : User), users s !! id = Some u → u_email u ≠ email) →
  let u := mkUser email password firstName lastName None USER true None 0 None
             (clock s) (clock s) in
  authRepo.createUser email password firstName lastName (mkWorld s [])
  = (Ok (uuidv4 (entropy s), u),
     mkWorld (with_users (insert (uuidv4 (entropy s)) u) (next_entropy s)) []).
Proof.
  intros Hid Hfree u. unfold authRepo.createUser. rewrite prisma_quiet.
  unfold Prisma.user_create. rewrite Hid.
  rewrite (bool_decide_eq_false_2 (is_Some None)) by (by intros [? ?]).
  assert (Hnone : Prisma.findFirst
                    (fun row : string * User => bool_decide (u_email row.2 = email))
                    (users s) = None).
  { apply findFirst_None. intros id u' Hrow. simpl.
    apply bool_decide_eq_false_2. by eapply Hfree. }
  rewrite Hnone.
  rewrite (bool_decide_eq_false_2 (is_Some None)) by (by intros [? ?]).
  done.
Qed.

Lemma createRefreshToken_quiet (data : RefreshTokenData) (s : State) :
  refreshTokens s !! d_token data = None →
  let row := mkRefreshToken (uuidv4 (entropy s)) (d_userId data) (d_expiresAt data)
               (clock s) in
  authRepo.createRefreshToken data (mkWorld s [])
  = (Ok row, mkWorld (with_refreshTokens (insert (d_token data) row) (next_entropy s)) []).
Proof.
  intros Hfree row. unfold authRepo.createRefreshToken. rewrite prisma_quiet.
  unfold Prisma.refreshToken_create. by rewrite Hfree.
Qed.

Lemma createSession_quiet (userId : string) (deviceInfo ipAddress : option string)
    (expiresAt : Z) (s : State) :
  sessions s !! uuidv4 (entropy s) = None →
  let row := mkSession userId deviceInfo ipAddress (clock s) expiresAt (clock s) in
  sessionRepository.createSession userId deviceInfo ipAddress expiresAt (mkWorld s [])
  = (Ok (uuidv4 (entropy s), row),
     mkWorld (with_sessions (insert (uuidv4 (entropy s)) row) (next_entropy s)) []).
Proof.
  intros Hfree row. unfold sessionRepository.createSession. rewrite prisma_quiet.
  unfold Prisma.session_create. by rewrite Hfree.
Qed.

(** C8.  The object [sanitizeUser] builds has no [password] property, and
    it is the [user] of every result of [register] and of [login].  A
    registration followed at once by a login with the same email and
    password succeeds, both returning that object: this for a request
    that runs alone on a reachable store, once [initAuth] has run, for an
    email no user has, a random source that does not repeat itself nor
    any key of the store, and a modern hash that the modern comparator
    accepts for its password and that has no legacy prefix. *)
Theorem register_then_login :
  (∀ user : string * User, sanitizeUser user !! "password" = None)
  ∧ (∀ (input : RegisterInput) (deviceInfo ipAddress : option string)
       (w w' : World) (r : AuthResult),
       register input deviceInfo ipAddress w = (Ok r, w') →
       user r !! "password" = None)
  ∧ (∀ (input : LoginInput) (deviceInfo ipAddress : option string)
       (w w' : World) (r : AuthResult),
       login input deviceInfo ipAddress w = (Ok r, w') →
       user r !! "password" = None)
  ∧ (∀ (input : RegisterInput) (deviceInfo ipAddress deviceInfo' ipAddress' : option string)
       (s : State),
       app s = true →
       (∀ (id : string) (u : User),
          users s !! id = Some u → u_email u ≠ ri_email input) →
       (∀ n m : nat, uuidv4 n = uuidv4 m → n = m) →
       (∀ n : nat,
          (entropy s ≤ n)%nat →
          users s !! uuidv4 n = None
          ∧ refreshTokens s !! uuidv4 n = None
          ∧ sessions s !! uuidv4 n = None) →
       (∀ salt : nat,
          isBcryptHash (argon2_hash ARGON2_OPTIONS (ri_password input) salt) = false
          ∧ argon2_verify (argon2_hash ARGON2_OPTIONS (ri_password input) salt)
              (ri_password input) = true) →
       ∃ (r1 r2 : AuthResult) (s1 s2 : State),
         register input deviceInfo ipAddress (mkWorld s []) = (Ok r1, mkWorld s1 [])
         ∧ login (mkLoginInput (ri_email input) (ri_password input))
             deviceInfo' ipAddress' (mkWorld s1 [])
           = (Ok r2, mkWorld s2 [])
         ∧ user r1 !! "password" = None
         ∧ user r2 !! "password" = None
         ∧ user r1 !! "email" = Some (JStr (ri_email input))
         ∧ user r1 !! "role" = Some (JStr "USER")
         ∧ user r2 = user r1).
Proof.
  split; [exact sanitizeUser_no_password|].
  split; [|split].
  - intros input deviceInfo ipAddress w w' r. revert w w' r.
    change (returns_only (fun r => user r !! "password" = None)
              (register input deviceInfo ipAddress)).
    unfold register. apply returns_only_bind. intros [existing|].
    { apply returns_only_throw. }
    repeat (apply returns_only_bind; intros ?).
    apply returns_only_ret. apply sanitizeUser_no_password.
  - intros input deviceInfo ipAddress w w' r. revert w w' r.
    change (returns_only (fun r => user r !! "password" = None)
              (login input deviceInfo ipAddress)).
    unfold login.
    repeat first
      [ apply returns_only_throw
      | apply returns_only_ret; apply sanitizeUser_no_password
      | apply returns_only_bind; intros ?
      | match goal with
        | |- returns_only _ (match ?x with _ => _ end) => destruct x
        end ].
  - intros input deviceInfo ipAddress deviceInfo' ipAddress' s
      Happ Hfree Hinj Hfresh Hhash.
    set (e := entropy s).
    destruct (Hfresh (S e)) as (Huser & _ & _); [lia|].
    destruct (Hfresh (S (S e))) as (_ & Htoken & _); [lia|].
    destruct (Hfresh (S (S (S (S e))))) as (_ & _ & Hsession); [lia|].
    destruct (Hfresh (S (S (S (S (S e)))))) as (_ & Htoken' & _); [lia|].
    destruct (Hfresh (S (S (S (S (S (S (S e)))))))) as (_ & _ & Hsession'); [lia|].
    destruct (Hhash e) as [Hmodern Hverify].
    assert (Hlookup :
      Prisma.findFirst (Prisma.where_email (ri_email input)) (users s) = None).
    { apply findFirst_None. intros id u Hrow. unfold Prisma.where_email; simpl.
      by rewrite (bool_decide_eq_false_2 _ (Hfree id u Hrow)). }
    eexists _, _, _, _.
    split; [|split].
    + unfold register.
      run (findUserByEmail_arrive (ri_email input) _ _ (arrive_nil s)).
      rewrite Hlookup.
      unfold bind at 1, hashPassword at 1.
      run (createUser_quiet (ri_email input) _ (ri_firstName input) (ri_lastName input)
             (next_entropy s) Huser Hfree).
      unfold bind at 1, signAccessToken at 1. simpl. rewrite Happ.
      unfold bind at 1, generateRefreshToken at 1. simpl.
      unfold getRefreshTokenExpiresAt, bind at 1, bind at 1, Date_now at 1, ret at 1.
      simpl.
      unshelve erewrite (bind_eq _ _ _ _ (createRefreshToken_quiet _ _ _));
        [exact Htoken|].
      simpl.
      unshelve erewrite (bind_eq _ _ _ _ (createSession_quiet _ _ _ _ _ _));
        [exact Hsession|].
      simpl. reflexivity.
    + unfold login. simpl.
      run (findUserByEmail_arrive (ri_email input) _ _ (arrive_nil _)).
      rewrite findFirst_insert; cycle 1.
      { intros id u' Hrow. unfold Prisma.where_email; simpl.
        by rewrite (bool_decide_eq_false_2 _ (Hfree id u' Hrow)). }
      { unfold Prisma.where_email; simpl. by rewrite !bool_decide_eq_true_2. }
      simpl. unfold bind at 1, Date_now at 1. simpl.
      unfold verifyPassword. fold e. rewrite Hmodern, Hverify. simpl.
      unfold bind at 1, ret at 1. unfold bind at 1, ret at 1.
      unfold bind at 1, signAccessToken at 1. simpl. rewrite Happ.
      unfold bind at 1, generateRefreshToken at 1. simpl.
      unfold getRefreshTokenExpiresAt, bind at 1, bind at 1, Date_now at 1, ret at 1.
      simpl.
      unshelve erewrite (bind_eq _ _ _ _ (createRefreshToken_quiet _ _ _)).
      { simpl. rewrite lookup_insert_ne; [exact Htoken'|].
        intros Heq. apply Hinj in Heq. lia. }
      simpl.
      unshelve erewrite (bind_eq _ _ _ _ (createSession_quiet _ _ _ _ _ _)).
      { simpl. rewrite lookup_insert_ne; [exact Hsession'|].
        intros Heq. apply Hinj in Heq. lia. }
      simpl. reflexivity.
    + simpl. repeat split; try apply sanitizeUser_no_password.
Qed.
End round_trip.

(** ** Durations *)

Lemma isDigit_digit_char (d : nat) : (d < 10)%nat → isDigit (digit_char d) = true.
Proof.
  intros Hd. do 10 (destruct d as [|d]; [reflexivity|]). lia.
Qed.

Lemma digit_char_value (d : nat) :
  (d < 10)%nat → Z.of_nat (nat_of_ascii (digit_char d)) - 48 = Z.of_nat d.
Proof.
  intros Hd. do 10 (destruct d as [|d]; [reflexivity|]). lia.
Qed.

Lemma multipliers_not_digit (unit : ascii) : is_Some (multipliers unit) → isDigit unit = false.
Proof.
  unfold multipliers. repeat case_bool_decide; subst; try reflexivity.
  by intros [? [=]].
Qed.

Lemma multipliers_thousands (unit : ascii) (m : Z) :
  multipliers unit = Some m → (1000 | m).
Proof.
  unfold multipliers. repeat case_bool_decide; intros [= <-].
  - by exists 1.
  - by exists 60.
  - by exists (60 * 60).
  - by exists (24 * 60 * 60).
Qed.

(** The greedy match reads all the digits of a numeral that is followed by
    something that is not a digit. *)
Lemma span_digits_numeral (ds : list nat) (rest : string) (value : Z) (read : nat) :
  digits ds →
  match rest with String c _ => isDigit c = false | EmptyString => True end →
  span_digits (numeral ds +:+ rest) value read
  = (decimal_from value ds, (read + length ds)%nat, rest).
Proof.
  intros Hds Hrest. revert value read.
  induction Hds as [|d ds Hd _ IH]; intros value read.
  - change (numeral [] +:+ rest) with rest. unfold decimal_from; simpl.
    rewrite Nat.add_0_r. destruct rest as [|c rest]; simpl; [done|]. by rewrite Hrest.
  - change (numeral (d :: ds) +:+ rest)
      with (String (digit_char d) (numeral ds +:+ rest)).
    cbn [span_digits]. rewrite (isDigit_digit_char d Hd), IH, (digit_char_value d Hd).
    do 2 f_equal. simpl. lia.
Qed.

(** What the greedy match has read is a numeral, and what follows does not
    start with a digit. *)
Lemma span_digits_inv (s : string) (value : Z) (read : nat) :
  ∃ ds : list nat,
    digits ds
    ∧ s = numeral ds +:+ (span_digits s value read).2
    ∧ (span_digits s value read).1.2 = (read + length ds)%nat.
Proof.
  revert value read. induction s as [|c s IH]; intros value read.
  - exists []. simpl. split; [constructor|]. split; [done|lia].
  - cbn [span_digits]. destruct (isDigit c) eqn:Hc.
    + destruct (IH (10 * value + (Z.of_nat (nat_of_ascii c) - 48)) (S read))
        as (ds & Hds & Hs & Hread).
      unfold isDigit in Hc. apply andb_true_iff in Hc as [Hlo Hhi].
      apply bool_decide_eq_true in Hlo, Hhi.
      exists ((nat_of_ascii c - 48)%nat :: ds). split; [|split].
      * constructor; [lia|done].
      * change (numeral ((nat_of_ascii c - 48)%nat :: ds) +:+ ?r)
          with (String (digit_char (nat_of_ascii c - 48)) (numeral ds +:+ r)).
        rewrite <- Hs. f_equal. unfold digit_char.
        replace (48 + (nat_of_ascii c - 48))%nat with (nat_of_ascii c) by lia.
        by rewrite ascii_nat_embedding.
      * rewrite Hread. simpl. lia.
    + exists []. simpl. split; [constructor|]. split; [done|lia].
Qed.

(** X1.  A duration that is a numeral followed by one of the units [s],
    [m], [h], [d] is decoded to the number times the milliseconds of the
    unit, leading zeros allowed, as long as the product is a safe
    integer; the fallback plays no part. *)
Theorem parseDurationMs_decodes (ds : list nat) (unit : ascii) (m fallbackMs : Z) :
  ds ≠ [] →
  digits ds →
  multipliers unit = Some m →
  decimal ds * m ≤ MAX_SAFE_INTEGER →
  parseDurationMs (numeral ds +:+ String unit EmptyString) fallbackMs = decimal ds * m.
Proof.
  intros Hne Hds Hunit _. unfold parseDurationMs.
  rewrite (span_digits_numeral ds _ 0 0 Hds)
    by (apply multipliers_not_digit; by rewrite Hunit).
  destruct ds as [|d ds]; [done|]. simpl. by rewrite Hunit.
Qed.

(** X2.  Any other duration gives the fallback: [parseDurationMs] returns
    something else than the fallback only for a numeral followed by one
    unit character and nothing more. *)
Theorem parseDurationMs_otherwise_fallback (duration : string) (fallbackMs : Z) :
  parseDurationMs duration fallbackMs = fallbackMs
  ∨ ∃ (ds : list nat) (unit : ascii),
      ds ≠ [] ∧ digits ds ∧ is_Some (multipliers unit)
      ∧ duration = numeral ds +:+ String unit EmptyString.
Proof.
  unfold parseDurationMs.
  destruct (span_digits_inv duration 0 0) as (ds & Hds & Hs & Hread).
  destruct (span_digits duration 0 0) as [[value read] rest]. simpl in Hs, Hread.
  destruct read as [|read]; [by left|].
  destruct rest as [|unit [|c rest]]; [by left| |by left].
  destruct (multipliers unit) as [m|] eqn:Hunit; [|by left].
  right. exists ds, unit. split; [|split; [done|split; [by rewrite Hunit|done]]].
  intros ->. simpl in Hread. lia.
Qed.

Lemma parseDurationMs_thousands (duration : string) (fallbackMs : Z) :
  (1000 | fallbackMs) → (1000 | parseDurationMs duration fallbackMs).
Proof.
  intros Hfb. unfold parseDurationMs.
  destruct (span_digits duration 0 0) as [[value read] rest].
  destruct read as [|read]; [done|].
  destruct rest as [|unit [|c rest]]; [done| |done].
  destruct (multipliers unit) as [m|] eqn:Hunit; [|done].
  apply Z.divide_mul_r. by eapply multipliers_thousands.
Qed.

Section cookie_props.
Context `{!Runtime} `{!Deployment}.

(** X3.  The refresh cookie and the refresh token it carries end together:
    [setAuthCookies] sets the cookie [refresh_token], restricted to the
    path of the auth routes, with a lifetime in seconds that, in
    milliseconds, is exactly the lifetime [getRefreshTokenExpiresAt] adds
    to the time of the call. *)
Theorem refresh_cookie_ends_with_token (reply : Reply) (access fresh : string)
    (w : World) :
  REFRESH_TOKEN_MAX_AGE_MS ≤ MAX_SAFE_INTEGER →
  ∃ maxAge : Z,
    last (r_cookies (setAuthCookies reply access fresh))
    = Some (SetCookie "refresh_token" fresh
              (mkCookieOptions true isProduction "strict" "/api/v1/auth" (Some maxAge)))
    ∧ getRefreshTokenExpiresAt w = (Ok (clock (st w) + 1000 * maxAge), w).
Proof.
  intros _. exists (REFRESH_TOKEN_MAX_AGE_MS `div` 1000). split.
  - unfold setAuthCookies, reply_setCookie; simpl. by rewrite last_snoc.
  - unfold getRefreshTokenExpiresAt, bind, Date_now, ret. do 2 f_equal.
    unfold REFRESH_TOKEN_MAX_AGE_MS.
    destruct (parseDurationMs_thousands (JWT_REFRESH_EXPIRY env)
                (7 * 24 * 60 * 60 * 1000)) as [k Hk]; [by exists (7 * 24 * 60 * 60)|].
    rewrite Hk, Z.div_mul by done. lia.
Qed.
End cookie_props.

(** ** The sessions of a user *)

#[global] Instance by_lastActiveAt_desc_trans : Transitive Prisma.by_lastActiveAt_desc.
Proof. unfold Prisma.by_lastActiveAt_desc. intros a b c ? ?. lia. Qed.

#[global] Instance by_lastActiveAt_desc_total : Total Prisma.by_lastActiveAt_desc.
Proof. unfold Prisma.by_lastActiveAt_desc. intros a b. lia. Qed.

Lemma activeSessions_elem (userId : string) (now : Z) (table : gmap string Session)
    (row : string * Session) :
  row ∈ Prisma.activeSessions userId now table
  ↔ table !! row.1 = Some row.2 ∧ s_userId row.2 = userId ∧ now < s_expiresAt row.2.
Proof.
  unfold Prisma.activeSessions. rewrite merge_sort_Permutation, list_elem_of_filter.
  destruct row as [id row]. rewrite elem_of_map_to_list. simpl. tauto.
Qed.

Lemma activeSessions_NoDup (userId : string) (now : Z) (table : gmap string Session) :
  NoDup (Prisma.activeSessions userId now table).*1.
Proof.
  unfold Prisma.activeSessions. rewrite merge_sort_Permutation.
  eapply sublist_NoDup; [apply (NoDup_fst_map_to_list table)|].
  apply fmap_sublist, sublist_filter.
Qed.

Lemma activeSessions_sorted (userId : string) (now : Z) (table : gmap string Session) :
  StronglySorted Prisma.by_lastActiveAt_desc (Prisma.activeSessions userId now table).
Proof. unfold Prisma.activeSessions. apply (StronglySorted_merge_sort _). Qed.

(** A filter and its complement split a table. *)
Lemma size_filter_split {A : Type} (P Q : string * A → Prop)
    `{!∀ kv, Decision (P kv)} `{!∀ kv, Decision (Q kv)} (table : gmap string A) :
  (∀ kv, Q kv ↔ ¬ P kv) →
  size table = (size (filter P table) + size (filter Q table))%nat.
Proof.
  intros HQ. rewrite <- (map_filter_union_complement P table) at 1.
  rewrite map_size_disj_union by apply map_disjoint_filter_complement.
  do 2 f_equal. apply map_filter_ext. intros id row _. symmetry. apply HQ.
Qed.

Section session_props.
Context `{!Runtime}.

(** X4.  [getUserSessions] of the service lists the sessions of the user
    that expire after the time read before the store is asked, as the
    store has them when it answers: each of them once, none of another
    user and none that has expired, most recently active first. *)
Theorem getUserSessions_lists (userId : string) (w w1 : World) :
  arrive w = Some w1 →
  ∃ rows : list (string * Session),
    getUserSessions userId w = (Ok (map sessionInfo rows), w1)
    ∧ (∀ row : string * Session,
         row ∈ rows
         ↔ sessions (st w1) !! row.1 = Some row.2
           ∧ s_userId row.2 = userId
           ∧ clock (st w) < s_expiresAt row.2)
    ∧ NoDup (map si_id (map sessionInfo rows))
    ∧ StronglySorted (fun a b => s_lastActiveAt b.2 ≤ s_lastActiveAt a.2) rows.
Proof.
  intros Ha. exists (Prisma.activeSessions userId (clock (st w)) (sessions (st w1))).
  split; [|split; [|split]].
  - unfold getUserSessions. by run (getUserSessions_arrive userId _ _ Ha).
  - apply activeSessions_elem.
  - rewrite map_map. apply activeSessions_NoDup.
  - apply activeSessions_sorted.
Qed.

(** X5.  [countUserSessions] counts what [getUserSessions] lists: on the
    same state the number it returns is the length of the list, and
    neither changes the state. *)
Theorem countUserSessions_counts_listing (userId : string) (s : State) :
  ∃ rows : list (string * Session),
    sessionRepository.getUserSessions userId (mkWorld s []) = (Ok rows, mkWorld s [])
    ∧ sessionRepository.countUserSessions userId (mkWorld s [])
      = (Ok (length rows), mkWorld s []).
Proof.
  eexists. split.
  - apply (getUserSessions_arrive userId _ _ (arrive_nil s)).
  - unfold sessionRepository.countUserSessions, bind, Date_now.
    rewrite prisma_quiet. simpl. do 2 f_equal.
    unfold Prisma.activeSessions. by rewrite merge_sort_Permutation.
Qed.

(** X6.  [deleteExpiredSessions], run alone, deletes the sessions that
    expired before now and no other, returns how many they were, and
    leaves the other tables alone; what [getUserSessions] lists for any
    user is the same sessions before and after.  A session that expires
    exactly now is kept, although it is no longer listed. *)
Theorem deleteExpiredSessions_sweeps (s : State) :
  ∃ (n : nat) (s' : State),
    sessionRepository.deleteExpiredSessions (mkWorld s []) = (Ok n, mkWorld s' [])
    ∧ (∀ (id : string) (row : Session),
         sessions s' !! id = Some row
         ↔ sessions s !! id = Some row ∧ clock s ≤ s_expiresAt row)
    ∧ size (sessions s) = (n + size (sessions s'))%nat
    ∧ users s' = users s ∧ refreshTokens s' = refreshTokens s ∧ clock s' = clock s
    ∧ (∀ userId : string,
         Prisma.activeSessions userId (clock s) (sessions s')
         ≡ₚ Prisma.activeSessions userId (clock s) (sessions s)).
Proof.
  eexists _, _. split.
  { unfold sessionRepository.deleteExpiredSessions, bind, Date_now.
    rewrite prisma_quiet. reflexivity. }
  simpl. split; [|split; [|split; [done|split; [done|split; [done|]]]]].
  - intros id row. rewrite map_lookup_filter_Some. simpl. tauto.
  - apply size_filter_split. intros kv. lia.
  - intros userId. apply NoDup_Permutation.
    + eapply NoDup_fmap_1, activeSessions_NoDup.
    + eapply NoDup_fmap_1, activeSessions_NoDup.
    + intros row. rewrite !activeSessions_elem, map_lookup_filter_Some. simpl.
      split; [tauto|]. intros (? & ? & ?). repeat split; try done. lia.
Qed.

(** X7.  [updateLastActive] touches one column of one row: run alone on
    a session that exists, it sets the session's last activity to now,
    and [getSessionById] then returns the session with every other
    column as it was; no other session changes.  For a session that does
    not exist the store's [P2025] error is thrown and nothing changes. *)
Theorem updateLastActive_getSessionById (sessionId : string) (s : State) :
  match sessions s !! sessionId with
  | Some row =>
      ∃ s' : State,
        (sessionRepository.updateLastActive sessionId (mkWorld s [])).2 = mkWorld s' []
        ∧ sessionRepository.getSessionById sessionId (mkWorld s' [])
          = (Ok (Some (sessionId,
                       mkSession (s_userId row) (s_deviceInfo row) (s_ipAddress row)
                         (clock s) (s_expiresAt row) (s_createdAt row))),
             mkWorld s' [])
        ∧ (∀ id : string, id ≠ sessionId → sessions s' !! id = sessions s !! id)
        ∧ users s' = users s ∧ refreshTokens s' = refreshTokens s
  | None =>
      sessionRepository.updateLastActive sessionId (mkWorld s [])
      = (Throw (PrismaKnownError "P2025"), mkWorld s [])
  end.
Proof.
  unfold sessionRepository.updateLastActive, sessionRepository.getSessionById,
    bind, Date_now.
  rewrite prisma_quiet. unfold Prisma.session_update.
  destruct (sessions s !! sessionId) as [row|] eqn:Hrow; simpl; [|done].
  eexists. split; [reflexivity|]. rewrite prisma_quiet. simpl.
  rewrite lookup_insert_eq. split; [done|]. split; [|done].
  intros id Hne. by rewrite lookup_insert_ne.
Qed.
End session_props.

(** ** The cleanup job *)

Section cleanup_props.
Context `{!Runtime}.

(** X8.  One run of the cleanup job never throws, whatever the store
    does: a failure is caught and logged, and what it logs as an error is
    always that the store could not be reached. *)
Theorem cleanupTick_never_throws (w : World) :
  ∃ (log : option LogRecord) (w' : World),
    cleanupTick w = (Ok log, w')
    ∧ (∀ e : Error, log = Some (LogError e) → ∃ msg : string, e = JsError msg).
Proof.
  unfold cleanupTick, tryCatch, bind at 1, Date_now at 1.
  destruct (arrive w) as [w1|] eqn:H1.
  2: { destruct (prisma_unreached
                   (Prisma.refreshToken_deleteMany_expired (clock (st w))) w H1)
         as [msg Hq].
       run Hq. eexists _, _. split; [reflexivity|]. intros e [= <-]. by exists msg. }
  run (prisma_arrive (Prisma.refreshToken_deleteMany_expired (clock (st w))) _ _ H1).
  match goal with |- context [bind (prisma ?q) _ ?w2] =>
    destruct (arrive w2) as [w3|] eqn:H2;
    [ run (prisma_arrive q _ _ H2)
    | destruct (prisma_unreached q w2 H2) as [msg Hq]; run Hq ]
  end.
  - destruct (_ || _); eexists _, _; (split; [reflexivity|]); by intros e [=].
  - eexists _, _. split; [reflexivity|]. intros e [= <-]. by exists msg.
Qed.

(** X9.  A run of the cleanup job that is not disturbed removes the
    refresh tokens and the sessions that expired before now, keeps every
    other row as it is, does not touch the users, and logs the two counts
    exactly when it removed something. *)
Theorem cleanupTick_sweeps (s : State) :
  ∃ (log : option LogRecord) (s' : State),
    cleanupTick (mkWorld s []) = (Ok log, mkWorld s' [])
    ∧ (∀ (t : string) (row : RefreshToken),
         refreshTokens s' !! t = Some row
         ↔ refreshTokens s !! t = Some row ∧ clock s ≤ rt_expiresAt row)
    ∧ (∀ (id : string) (row : Session),
         sessions s' !! id = Some row
         ↔ sessions s !! id = Some row ∧ clock s ≤ s_expiresAt row)
    ∧ users s' = users s
    ∧ match log with
      | None => s' = s
      | Some (LogInfo deletedTokens deletedSessions) =>
          size (refreshTokens s) = (deletedTokens + size (refreshTokens s'))%nat
          ∧ size (sessions s) = (deletedSessions + size (sessions s'))%nat
          ∧ (0 < deletedTokens + deletedSessions)%nat
      | Some (LogError _) => False
      end.
Proof.
  unfold cleanupTick, tryCatch, bind at 1, Date_now at 1.
  run (prisma_quiet (Prisma.refreshToken_deleteMany_expired (clock s)) s).
  erewrite (bind_eq _ _ _ _ (prisma_quiet _ _)). simpl.
  set (nt := size (filter (fun kv : string * RefreshToken =>
                             rt_expiresAt kv.2 < clock s) (refreshTokens s))).
  set (ns := size (filter (fun kv : string * Session =>
                             s_expiresAt kv.2 < clock s) (sessions s))).
  pose proof (size_filter_split
                (fun kv : string * RefreshToken => rt_expiresAt kv.2 < clock s)
                (fun kv => clock s ≤ rt_expiresAt kv.2) (refreshTokens s)) as Hnt.
  pose proof (size_filter_split
                (fun kv : string * Session => s_expiresAt kv.2 < clock s)
                (fun kv => clock s ≤ s_expiresAt kv.2) (sessions s)) as Hns.
  fold nt in Hnt. fold ns in Hns.
  destruct (bool_decide (0 < nt)%nat || bool_decide (0 < ns)%nat) eqn:Hany;
    eexists _, _; (split; [reflexivity|]); simpl;
    (split; [intros t row; rewrite map_lookup_filter_Some; simpl; tauto|]);
    (split; [intros t row; rewrite map_lookup_filter_Some; simpl; tauto|]);
    (split; [done|]).
  - split; [apply Hnt; intros kv; lia|]. split; [apply Hns; intros kv; lia|].
    apply orb_true_iff in Hany as [Hsome|Hsome]; apply bool_decide_eq_true in Hsome; lia.
  - apply orb_false_iff in Hany as [Ht Hs].
    apply bool_decide_eq_false in Ht, Hs.
    assert (Ht0 : nt = 0%nat) by lia. assert (Hs0 : ns = 0%nat) by lia.
    destruct s as [us ts ss c e a]; unfold with_sessions, with_refreshTokens; simpl in *.
    f_equal.
    + apply map_filter_id. intros t row Hrow.
      destruct (decide (rt_expiresAt row < c)) as [Hexp|]; [|simpl; lia].
      exfalso. apply map_size_empty_iff in Ht0.
      apply (map_filter_empty_not_lookup _ _ t row Ht0); done.
    + apply map_filter_id. intros t row Hrow.
      destruct (decide (s_expiresAt row < c)) as [Hexp|]; [|simpl; lia].
      exfalso. apply map_size_empty_iff in Hs0.
      apply (map_filter_empty_not_lookup _ _ t row Hs0); done.
Qed.
End cleanup_props.

(** ** Logging out everywhere *)

Section logoutAll_props.
Context `{!Runtime}.

Lemma logoutAllSessions_quiet (userId : string) (s : State) :
  logoutAllSessions userId (mkWorld s [])
  = (Ok (size (filter (fun kv : string * Session => s_userId kv.2 = userId) (sessions s))),
     mkWorld
       (with_refreshTokens (filter (fun kv => rt_userId kv.2 ≠ userId))
          (with_sessions (filter (fun kv => s_userId kv.2 ≠ userId)) s)) []).
Proof.
  unfold logoutAllSessions, sessionRepository.deleteAllUserSessions,
    authRepo.deleteRefreshTokensByUserId.
  run (prisma_quiet (Prisma.session_deleteMany userId) s).
  by run (prisma_quiet (Prisma.refreshToken_deleteMany userId) _).
Qed.

(** X10.  [logoutAllSessions], run alone, deletes every session and every
    refresh token of the user and nothing else, and the number it
    returns is the number of sessions it deleted: expired sessions are
    counted too, so it is at least the number of sessions
    [getUserSessions] listed. *)
Theorem logoutAllSessions_effect (userId : string) (s : State) :
  ∃ (count : nat) (s' : State),
    logoutAllSessions userId (mkWorld s []) = (Ok count, mkWorld s' [])
    ∧ (∀ (id : string) (row : Session),
         sessions s' !! id = Some row
         ↔ sessions s !! id = Some row ∧ s_userId row ≠ userId)
    ∧ (∀ (t : string) (row : RefreshToken),
         refreshTokens s' !! t = Some row
         ↔ refreshTokens s !! t = Some row ∧ rt_userId row ≠ userId)
    ∧ users s' = users s
    ∧ size (sessions s) = (count + size (sessions s'))%nat
    ∧ (length (Prisma.activeSessions userId (clock s) (sessions s)) ≤ count)%nat.
Proof.
  eexists _, _. split; [apply logoutAllSessions_quiet|]. simpl.
  split; [|split; [|split; [done|split]]].
  - intros id row. rewrite map_lookup_filter_Some. simpl. tauto.
  - intros t row. rewrite map_lookup_filter_Some. simpl. tauto.
  - by apply size_filter_split.
  - rewrite <- length_map_to_list. apply submseteq_length, NoDup_submseteq.
    + eapply NoDup_fmap_1, activeSessions_NoDup.
    + intros [id row]. rewrite activeSessions_elem, elem_of_map_to_list,
        map_lookup_filter_Some. simpl. tauto.
Qed.

(** X11.  After [logoutAllSessions] has run alone, the user is logged out
    everywhere: [getUserSessions] lists nothing for the user, and
    [refresh] refuses every refresh token that was the user's with
    "Invalid refresh token". *)
Theorem logoutAllSessions_then_refresh (userId t : string) (s : State)
    (stored : RefreshToken) :
  refreshTokens s !! t = Some stored →
  rt_userId stored = userId →
  ∃ (count : nat) (s' : State),
    logoutAllSessions userId (mkWorld s []) = (Ok count, mkWorld s' [])
    ∧ getUserSessions userId (mkWorld s' []) = (Ok [], mkWorld s' [])
    ∧ refresh t (mkWorld s' [])
      = (Throw (UnauthorizedError "Invalid refresh token" "INVALID_REFRESH_TOKEN"),
         mkWorld s' []).
Proof.
  intros Hstored Howner.
  eexists _, _. split; [apply logoutAllSessions_quiet|]. split.
  - unfold getUserSessions.
    run (getUserSessions_arrive userId _ _ (arrive_nil _)).
    match goal with
    | |- context [Prisma.activeSessions ?u ?now ?table] =>
        destruct (Prisma.activeSessions u now table) as [|row rows] eqn:Hrows
    end; [done|].
    assert (Hin : row ∈ row :: rows) by left. rewrite <- Hrows in Hin.
    apply activeSessions_elem in Hin as (Hrow & Hu & _).
    apply map_lookup_filter_Some in Hrow as [_ Hne]. simpl in Hne. done.
  - unfold refresh.
    run (findRefreshToken_arrive t _ _ (arrive_nil _)).
    rewrite map_lookup_filter_None_2; [done|].
    right. intros row' Hrow'. simpl. rewrite Hstored in Hrow'.
    injection Hrow' as <-. tauto.
Qed.

(** X12.  The two deletions of [logoutAllSessions] are two store calls
    and not one transaction: when the store answers the first and cannot
    be reached for the second, and nothing else interferes, the call
    throws, the sessions of the user are gone and the refresh tokens are
    all still there. *)
Theorem logoutAllSessions_not_atomic (userId : string) (s : State)
    (e1 e2 : EnvStep) (rest : list EnvStep) (msg : string) :
  (∀ s0, interfere e1 s0 = s0) →
  (∀ s0, interfere e2 s0 = s0) →
  fault e1 = None →
  fault e2 = Some msg →
  ∃ s' : State,
    logoutAllSessions userId (mkWorld s (e1 :: e2 :: rest))
    = (Throw (JsError msg), mkWorld s' rest)
    ∧ (∀ (id : string) (row : Session),
         sessions s' !! id = Some row
         ↔ sessions s !! id = Some row ∧ s_userId row ≠ userId)
    ∧ refreshTokens s' = refreshTokens s.
Proof.
  intros Hcalm1 Hcalm2 Hok Hfault.
  unfold logoutAllSessions, sessionRepository.deleteAllUserSessions,
    authRepo.deleteRefreshTokensByUserId, bind, prisma. simpl.
  rewrite Hok, Hcalm1. simpl. rewrite Hfault, Hcalm2.
  eexists. split; [reflexivity|]. simpl. split; [|done].
  intros id row. rewrite map_lookup_filter_Some. simpl. tauto.
Qed.
End logoutAll_props.

(** ** The current user *)

Section currentUser_props.
Context `{!Runtime}.

Lemma sanitizeUser_id (user : string * User) :
  sanitizeUser user !! "id" = Some (JStr user.1).
Proof. reflexivity. Qed.

Lemma sanitizeUser_isActive (user : string * User) :
  sanitizeUser user !! "isActive" = Some (JBool (u_isActive user.2)).
Proof. reflexivity. Qed.

Lemma sanitizeUser_password (user : string * User) :
  sanitizeUser user !! "password" = None.
Proof. reflexivity. Qed.

(** X13.  [getCurrentUser] answers for every user that is stored and not
    soft-deleted, disabled accounts included: the object has the
    identifier asked for and no password.  For any other identifier it
    throws the NotFound error [USER_NOT_FOUND].  It never changes the
    state. *)
Theorem getCurrentUser_found_or_not (userId : string) (w w1 : World) :
  arrive w = Some w1 →
  match users (st w1) !! userId with
  | Some u =>
      if bool_decide (u_deletedAt u = None) then
        ∃ obj : gmap string JsValue,
          getCurrentUser userId w = (Ok obj, w1)
          ∧ obj !! "id" = Some (JStr userId)
          ∧ obj !! "email" = Some (JStr (u_email u))
          ∧ obj !! "isActive" = Some (JBool (u_isActive u))
          ∧ obj !! "password" = None
      else
        getCurrentUser userId w
        = (Throw (AppError "NotFoundError" "USER_NOT_FOUND" "User not found" 404), w1)
  | None =>
      getCurrentUser userId w
      = (Throw (AppError "NotFoundError" "USER_NOT_FOUND" "User not found" 404), w1)
  end.
Proof.
  intros Ha. unfold getCurrentUser.
  run (findUserById_arrive userId _ _ Ha). unfold Prisma.where_id.
  destruct (users (st w1) !! userId) as [u|]; [|done].
  case_bool_decide; [|done].
  eexists. split; [reflexivity|]. by repeat split.
Qed.
End currentUser_props.

(** ** More on [refresh] *)

(** The tables [refresh] never writes to. *)
#[global] Instance users_and_sessions_kept_refl : Reflexive users_and_sessions_kept.
Proof. by intros s. Qed.

#[global] Instance users_and_sessions_kept_trans : Transitive users_and_sessions_kept.
Proof. intros s1 s2 s3 [? ?] [? ?]. split; congruence. Qed.

Section refresh_more.
Context `{!Runtime}.

Lemma refresh_missing (t : string) (w w1 : World) :
  arrive w = Some w1 →
  refreshTokens (st w1) !! t = None →
  refresh t w
  = (Throw (UnauthorizedError "Invalid refresh token" "INVALID_REFRESH_TOKEN"), w1).
Proof.
  intros Ha Hnone. unfold refresh.
  run (findRefreshToken_arrive t _ _ Ha). by rewrite Hnone.
Qed.

(** What a successful [refresh] has done. *)
Lemma refresh_ok_inv (t : string) (w w' : World) (tokens : TokenPair) :
  refresh t w = (Ok tokens, w') →
  ∃ (w1 w2 w3 : World) (stored : RefreshToken) (owner : User),
    arrive w = Some w1
    ∧ refreshTokens (st w1) !! t = Some stored
    ∧ ¬ rt_expiresAt stored < clock (st w1)
    ∧ arrive w1 = Some w2
    ∧ users (st w2) !! rt_userId stored = Some owner
    ∧ u_deletedAt owner = None
    ∧ u_isActive owner = true
    ∧ arrive (drawn w2) = Some w3
    ∧ is_Some (refreshTokens (st w3) !! t)
    ∧ tokens = mkTokenPair (jwt_sign (rt_userId stored) (u_role owner)
                              (JWT_ACCESS_EXPIRY env))
                 (uuidv4 (entropy (st w2)))
    ∧ w' = mkWorld
             (with_refreshTokens
                (fun m =>
                   <[uuidv4 (entropy (st w2)) :=
                       mkRefreshToken (uuidv4 (entropy (st w3))) (rt_userId stored)
                         (clock (st w2)
                          + parseDurationMs (JWT_REFRESH_EXPIRY env)
                              (7 * 24 * 60 * 60 * 1000))
                         (clock (st w3))]> (delete t m))
                (next_entropy (st w3)))
             (sched w3).
Proof.
  unfold refresh.
  destruct (arrive w) as [w1|] eqn:H1.
  2: { destruct (findRefreshToken_unreached t w H1) as [msg Hq]. by run Hq. }
  run (findRefreshToken_arrive t _ _ H1).
  destruct (refreshTokens (st w1) !! t) as [stored|] eqn:Hstored; [|done].
  unfold bind at 1, Date_now at 1.
  case_bool_decide as Hexp.
  { intros Hok. exfalso. revert Hok.
    match goal with
    | |- ?m w1 = _ → _ => assert (Hnever : returns_only (fun _ : TokenPair => False) m)
    end.
    { apply returns_only_bind; intros ?. apply returns_only_throw. }
    apply Hnever. }
  destruct (arrive w1) as [w2|] eqn:H2.
  2: { destruct (findUserById_unreached (rt_userId stored) w1 H2) as [msg Hq]. by run Hq. }
  run (findUserById_arrive (rt_userId stored) _ _ H2). unfold Prisma.where_id.
  destruct (users (st w2) !! rt_userId stored) as [owner|] eqn:Howner; [|done].
  case_bool_decide as Hkept; [|done]. simpl.
  destruct (u_isActive owner) eqn:Hactive; simpl; [|done].
  unfold bind at 1, signAccessToken at 1.
  destruct (app (st w2)) eqn:Happ; [|done].
  unfold bind at 1, generateRefreshToken at 1.
  unfold getRefreshTokenExpiresAt, bind at 1, bind at 1, Date_now at 1, ret at 1.
  fold (drawn w2).
  destruct (arrive (drawn w2)) as [w3|] eqn:H3.
  2: { destruct (rotateRefreshToken_unreached t
                   (mkRefreshTokenData (uuidv4 (entropy (st w2))) (rt_userId stored)
                      (clock (st (drawn w2))
                       + parseDurationMs (JWT_REFRESH_EXPIRY env)
                           (7 * 24 * 60 * 60 * 1000)))
                   (drawn w2) H3) as [msg Hq].
       by run Hq. }
  run (rotateRefreshToken_arrive t _ _ _ H3).
  destruct (refreshTokens (st w3) !! t) as [old|] eqn:Hold; [|done].
  destruct (delete t (refreshTokens (st w3)) !! uuidv4 (entropy (st w2))); [done|].
  simpl. intros [= <- <-].
  exists w1, w2, w3, stored, owner. by repeat split.
Qed.

(** X14.  A refresh token is good for one refresh.  When [refresh]
    returns, the token it was given is no longer in the store and the
    token it returns is, owned by the same user; called again with the
    old token, with nothing else going on, it throws "Invalid refresh
    token".  (That the new token differs from the old one is the
    uniqueness of the random identifiers.) *)
Theorem refresh_single_use (t : string) (w : World) (s' : State) (tokens : TokenPair) :
  refresh t w = (Ok tokens, mkWorld s' []) →
  tp_refreshToken tokens ≠ t →
  refreshTokens s' !! t = None
  ∧ (∃ (w1 : World) (old new : RefreshToken),
       arrive w = Some w1
       ∧ refreshTokens (st w1) !! t = Some old
       ∧ refreshTokens s' !! tp_refreshToken tokens = Some new
       ∧ rt_userId new = rt_userId old)
  ∧ refresh t (mkWorld s' [])
    = (Throw (UnauthorizedError "Invalid refresh token" "INVALID_REFRESH_TOKEN"),
       mkWorld s' []).
Proof.
  intros Hok Hfresh.
  destruct (refresh_ok_inv t w _ tokens Hok)
    as (w1 & w2 & w3 & stored & owner & H1 & Hstored & _ & _ & _ & _ & _ & _ & _
        & -> & Hw').
  injection Hw' as -> _. simpl in *.
  assert (Hgone : <[uuidv4 (entropy (st w2)) :=
                      mkRefreshToken (uuidv4 (entropy (st w3))) (rt_userId stored)
                        (clock (st w2)
                         + parseDurationMs (JWT_REFRESH_EXPIRY env)
                             (7 * 24 * 60 * 60 * 1000))
                        (clock (st w3))]> (delete t (refreshTokens (st w3))) !! t
                  = None).
  { rewrite lookup_insert_ne by done. apply lookup_delete_eq. }
  split; [done|]. split.
  - exists w1, stored. eexists. split; [done|]. split; [done|].
    split; [apply lookup_insert_eq|done].
  - by apply (refresh_missing t _ _ (arrive_nil _)).
Qed.

(** X15.  [refresh] works on the refresh tokens only: whatever it
    returns or throws, a call that runs alone leaves the users and the
    sessions exactly as they were; in particular it does not extend the
    session or record its activity. *)
Theorem refresh_keeps_users_and_sessions (t : string) (s : State) :
  ∃ s' : State,
    (refresh t (mkWorld s [])).2 = mkWorld s' []
    ∧ users s' = users s
    ∧ sessions s' = sessions s.
Proof.
  revert s.
  change (steps users_and_sessions_kept (refresh t)).
  unfold refresh, authRepo.findRefreshToken, authRepo.deleteRefreshToken,
    authRepo.findUserById, authRepo.rotateRefreshToken, getRefreshTokenExpiresAt.
  repeat first
    [ apply steps_ret; apply _
    | apply steps_throw; apply _
    | apply steps_prisma; intros s;
      unfold users_and_sessions_kept, transaction, Prisma.refreshToken_findUnique, Prisma.refreshToken_delete,
        Prisma.refreshToken_create, Prisma.user_findUnique_id;
      simpl; repeat (case_match; simpl); done
    | apply steps_pure; [apply _|]; intros w;
      unfold signAccessToken, Date_now; repeat (case_match; simpl); done
    | by intros s; eexists; split; [reflexivity|]
    | apply steps_bind; [apply _| |intros ?]
    | apply steps_tryCatch; [apply _| |intros ?]
    | match goal with
      | |- steps _ (match ?x with _ => _ end) => destruct x
      | |- steps _ (if ?x then _ else _) => destruct x
      end ].
  apply steps_prisma; intros s.
  unfold users_and_sessions_kept, transaction, Prisma.refreshToken_delete,
    Prisma.refreshToken_create; simpl.
  destruct (refreshTokens s !! t); simpl; [|done].
  by destruct (delete t (refreshTokens s) !! _).
Qed.

(** X16.  A refresh token whose owner is soft-deleted, disabled or gone
    is refused with "User not found or disabled" under the code
    [INVALID_REFRESH_TOKEN], and the call leaves the state as it found
    it: the token is not deleted. *)
Theorem refresh_owner_gone_or_disabled (t : string) (w w1 w2 : World)
    (stored : RefreshToken) :
  arrive w = Some w1 →
  refreshTokens (st w1) !! t = Some stored →
  ¬ rt_expiresAt stored < clock (st w1) →
  arrive w1 = Some w2 →
  (∀ owner : User,
     users (st w2) !! rt_userId stored = Some owner →
     u_deletedAt owner ≠ None ∨ u_isActive owner = false) →
  refresh t w
  = (Throw (AppError "UnauthorizedError" "INVALID_REFRESH_TOKEN"
              "User not found or disabled" 401), w2).
Proof.
  intros H1 Hstored Hfresh H2 Howner. unfold refresh.
  run (findRefreshToken_arrive t _ _ H1). rewrite Hstored.
  unfold bind at 1, Date_now at 1. rewrite bool_decide_eq_false_2 by done.
  run (findUserById_arrive (rt_userId stored) _ _ H2). unfold Prisma.where_id.
  destruct (users (st w2) !! rt_userId stored) as [owner|]; [|done].
  destruct (Howner owner eq_refl) as [Hdel|Hoff].
  - by rewrite bool_decide_eq_false_2.
  - case_bool_decide; [|done]. simpl. by rewrite Hoff.
Qed.

(** X17.  Logging out ends the refresh token: after [logout] has run
    alone, [refresh] with the same token throws "Invalid refresh token",
    whether or not the token existed before. *)
Theorem logout_then_refresh (t : string) (s : State) :
  ∃ s' : State,
    logout t (mkWorld s []) = (Ok tt, mkWorld s' [])
    ∧ refresh t (mkWorld s' [])
      = (Throw (UnauthorizedError "Invalid refresh token" "INVALID_REFRESH_TOKEN"),
         mkWorld s' []).
Proof.
  exists (logout_effect t s). split; [apply logout_quiet|].
  apply (refresh_missing t _ _ (arrive_nil _)). apply logout_effect_token_gone.
Qed.
End refresh_more.

(** ** What the calls can throw *)

Lemma throws_only_tryCatch {A : Type} (φ : Error → Prop) (m : M A)
    (handler : Error → M A) :
  throws_only φ m → (∀ e, φ e → throws_only φ (handler e)) →
  throws_only φ (tryCatch m handler).
Proof.
  intros Hm Hh w w' e. unfold tryCatch.
  destruct (m w) as [[a|e'] w1] eqn:Hmw; [done|].
  apply (Hh e'). by eapply Hm.
Qed.

Section more_throws.
Context `{!Runtime}.

Lemma findRefreshToken_throws (t : string) :
  throws_only store_failure (authRepo.findRefreshToken t).
Proof. apply throws_only_prisma; [done|]. by intros s s' e [=]. Qed.

Lemma findUserById_throws (id : string) :
  throws_only store_failure (authRepo.findUserById id).
Proof. apply throws_only_prisma; [done|]. by intros s s' e [=]. Qed.

Lemma findUserByEmail_throws (email : string) :
  throws_only store_failure (authRepo.findUserByEmail email).
Proof. apply throws_only_prisma; [done|]. by intros s s' e [=]. Qed.

Lemma deleteRefreshToken_throws (t : string) :
  throws_only store_failure (authRepo.deleteRefreshToken t).
Proof.
  apply throws_only_tryCatch.
  - apply throws_only_bind; [|intros ?; apply throws_only_ret].
    apply throws_only_prisma; [done|]. intros s s' e. unfold Prisma.refreshToken_delete.
    destruct (refreshTokens s !! t); [done|]. by intros [= <- _].
  - intros e He. destruct (isRecordNotFound e); [apply throws_only_ret|].
    by apply throws_only_throw.
Qed.

Lemma rotateRefreshToken_throws (old : string) (new : RefreshTokenData) :
  throws_only store_failure (authRepo.rotateRefreshToken old new).
Proof.
  apply throws_only_tryCatch.
  - apply throws_only_bind; [|intros ?; apply throws_only_ret].
    apply throws_only_prisma; [done|]. intros s s' e.
    unfold transaction, Prisma.refreshToken_delete, Prisma.refreshToken_create.
    destruct (refreshTokens s !! old); simpl; [|by intros [= <- _]].
    destruct (delete old (refreshTokens s) !! d_token new); simpl; [|done].
    by intros [= <- _].
  - intros e He. destruct (isRecordNotFound e); [apply throws_only_ret|].
    by apply throws_only_throw.
Qed.

Lemma getUserSessions_throws (userId : string) :
  throws_only store_failure (sessionRepository.getUserSessions userId).
Proof.
  apply throws_only_bind; [apply Date_now_throws|intros now].
  apply throws_only_prisma; [done|]. by intros s s' e [=].
Qed.

Lemma deleteAllUserSessions_throws (userId : string) :
  throws_only store_failure (sessionRepository.deleteAllUserSessions userId).
Proof. apply throws_only_prisma; [done|]. by intros s s' e [=]. Qed.

Lemma deleteRefreshTokensByUserId_throws (userId : string) :
  throws_only store_failure (authRepo.deleteRefreshTokensByUserId userId).
Proof. apply throws_only_prisma; [done|]. by intros s s' e [=]. Qed.
End more_throws.

#[local] Hint Resolve findRefreshToken_throws findUserById_throws findUserByEmail_throws
  deleteRefreshToken_throws rotateRefreshToken_throws getUserSessions_throws
  deleteAllUserSessions_throws deleteRefreshTokensByUserId_throws : throws.

(** [throws_go] follows the code of a function, leaving the application
    errors it throws to be shown of the right kind. *)
Ltac throws_go :=
  repeat first
    [ apply throws_only_ret
    | apply throws_store_or; solve [eauto with throws]
    | apply throws_only_bind; [|intros ?]
    | match goal with
      | |- throws_only _ (match ?x with _ => _ end) => destruct x
      | |- throws_only _ (if ?x then _ else _) => destruct x
      end
    | apply throws_only_throw ].

Section service_throws.
Context `{!Runtime}.

Lemma register_throws (input : RegisterInput) (deviceInfo ipAddress : option string) :
  throws_only
    (fun e => store_failure e
              ∨ e = ConflictError "Email already registered" "EMAIL_ALREADY_EXISTS")
    (register input deviceInfo ipAddress).
Proof. unfold register. throws_go. by right. Qed.

Lemma refresh_tail_throws (t : string) (stored : RefreshToken) :
  throws_only
    (fun e => store_failure e
              ∨ ∃ message : string,
                  e = AppError "UnauthorizedError" "INVALID_REFRESH_TOKEN" message 401)
    (found <- authRepo.findUserById (rt_userId stored) ;;
     match found with
     | None =>
         throw (UnauthorizedError "User not found or disabled" "INVALID_REFRESH_TOKEN")
     | Some user =>
         if negb (u_isActive user.2) then
           throw (UnauthorizedError "User not found or disabled" "INVALID_REFRESH_TOKEN")
         else
           newAccessToken <- signAccessToken user.1 (u_role user.2) ;;
           newRefreshToken <- generateRefreshToken ;;
           expiresAt <- getRefreshTokenExpiresAt ;;
           rotated <- authRepo.rotateRefreshToken t
                        (mkRefreshTokenData newRefreshToken user.1 expiresAt) ;;
           if negb rotated then
             throw (UnauthorizedError "Refresh token already used" "INVALID_REFRESH_TOKEN")
           else ret (mkTokenPair newAccessToken newRefreshToken)
     end).
Proof. throws_go; right; by eexists. Qed.

Lemma refresh_throws (t : string) :
  throws_only (fun e => store_failure e ∨ refresh_refusal e) (refresh t).
Proof.
  unfold refresh.
  apply throws_only_bind; [apply throws_store_or; eauto with throws|].
  intros [stored|].
  2: { apply throws_only_throw. right. eexists _, _. split; [reflexivity|by left]. }
  apply throws_only_bind; [apply Date_now_throws|intros now].
  case_bool_decide.
  - apply throws_only_bind; [apply throws_store_or; eauto with throws|intros _].
    apply throws_only_throw. right. eexists _, _. split; [reflexivity|by right].
  - eapply throws_only_weaken; [|apply refresh_tail_throws].
    intros e [He|[message ->]]; [by left|].
    right. eexists _, _. split; [reflexivity|by left].
Qed.

Lemma getCurrentUser_throws (userId : string) :
  throws_only
    (fun e => store_failure e ∨ e = NotFoundError "User not found" "USER_NOT_FOUND")
    (getCurrentUser userId).
Proof. unfold getCurrentUser. throws_go. by right. Qed.

Lemma logoutAllSessions_throws (userId : string) :
  throws_only store_failure (logoutAllSessions userId).
Proof.
  unfold logoutAllSessions.
  repeat (apply throws_only_bind; [by eauto with throws|intros ?]).
  apply throws_only_ret.
Qed.

Lemma logout_total (t : string) (w : World) : ∃ w' : World, logout t w = (Ok tt, w').
Proof.
  unfold logout, tryCatch.
  match goal with |- context [match ?m w with _ => _ end] => destruct (m w) as [[[]|e] w'] end;
    by eexists.
Qed.
End service_throws.

(** ** The cleanup job and [refresh] *)

Section cleanup_refresh.
Context `{!Runtime}.

Lemma cleanupTick_quiet (s : State) :
  ∃ log : option LogRecord,
    cleanupTick (mkWorld s [])
    = (Ok log,
       mkWorld
         (with_sessions (filter (fun kv => clock s ≤ s_expiresAt kv.2))
            (with_refreshTokens (filter (fun kv => clock s ≤ rt_expiresAt kv.2)) s)) []).
Proof.
  unfold cleanupTick, tryCatch, bind at 1, Date_now at 1.
  run (prisma_quiet (Prisma.refreshToken_deleteMany_expired (clock s)) s).
  erewrite (bind_eq _ _ _ _ (prisma_quiet _ _)). simpl.
  destruct (_ || _); by eexists.
Qed.

(** X18.  The cleanup job and [refresh] draw the same line: of the refresh
    tokens in the store, an undisturbed run of the job removes exactly
    those that [refresh], called at the same time, would have refused as
    expired. *)
Theorem cleanup_removes_what_refresh_refuses (t : string) (s : State)
    (stored : RefreshToken) :
  refreshTokens s !! t = Some stored →
  ∃ (log : option LogRecord) (s' : State),
    cleanupTick (mkWorld s []) = (Ok log, mkWorld s' [])
    ∧ (refreshTokens s' !! t = None
       ↔ ∃ w' : World,
           refresh t (mkWorld s [])
           = (Throw (UnauthorizedError "Refresh token expired" "REFRESH_TOKEN_EXPIRED"),
              w')).
Proof.
  intros Hstored. destruct (cleanupTick_quiet s) as [log Hlog].
  eexists _, _. split; [exact Hlog|]. simpl.
  destruct (decide (rt_expiresAt stored < clock s)) as [Hexp|Hfresh].
  - split; intros _.
    + eexists. unfold refresh.
      run (findRefreshToken_arrive t _ _ (arrive_nil s)). rewrite Hstored.
      unfold bind at 1, Date_now at 1. simpl. rewrite bool_decide_eq_true_2 by done.
      by run (deleteRefreshToken_arrive t _ _ (arrive_nil s)).
    + apply map_lookup_filter_None_2. right. intros row Hrow. simpl.
      rewrite Hstored in Hrow. injection Hrow as <-. lia.
  - split.
    + intros Hnone. exfalso.
      apply map_lookup_filter_None_1 in Hnone as [Hnone|Hall]; [congruence|].
      apply (Hall stored Hstored). simpl. lia.
    + intros [w' Hthrow]. exfalso. revert Hthrow. unfold refresh.
      run (findRefreshToken_arrive t _ _ (arrive_nil s)). rewrite Hstored.
      unfold bind at 1, Date_now at 1. simpl. rewrite bool_decide_eq_false_2 by done.
      intros Hthrow. apply (refresh_tail_throws t stored) in Hthrow.
      by destruct Hthrow as [[]|[message [=]]].
Qed.
End cleanup_refresh.

(** ** The controller *)

Section controller_props.
Context `{!Runtime} `{!Deployment}.

Lemma register_returns_sanitized (input : RegisterInput)
    (deviceInfo ipAddress : option string) :
  returns_only (fun r => user r !! "password" = None)
    (register input deviceInfo ipAddress).
Proof.
  unfold register. apply returns_only_bind. intros [existing|].
  { apply returns_only_throw. }
  repeat (apply returns_only_bind; intros ?).
  apply returns_only_ret. apply sanitizeUser_password.
Qed.

Lemma login_returns_sanitized (input : LoginInput)
    (deviceInfo ipAddress : option string) :
  returns_only (fun r => user r !! "password" = None) (login input deviceInfo ipAddress).
Proof.
  unfold login.
  repeat first
    [ apply returns_only_throw
    | apply returns_only_ret; apply sanitizeUser_password
    | apply returns_only_bind; intros ?
    | match goal with
      | |- returns_only _ (match ?x with _ => _ end) => destruct x
      end ].
Qed.

(** X19.  The [logout] endpoint cannot fail.  Whether the request has a
    refresh cookie or not, whether the token is known or not, and
    whatever the store does, it clears the two auth cookies, each under
    the path it was set with, and sends the success response; without a
    cookie, or with an empty one, it does not call the store at all. *)
Theorem controller_logout_always_succeeds (request : Request) (reply : Reply)
    (w : World) :
  ∃ w' : World,
    authController.logout request reply w
    = (Ok (mkReply (r_status reply)
             (r_cookies reply
              ++ [ClearCookie "access_token"
                    (mkCookieOptions true isProduction "strict" "/" None);
                  ClearCookie "refresh_token"
                    (mkCookieOptions true isProduction "strict" "/api/v1/auth" None)])
             (Some (successResponse "Logged out successfully" PNull))),
       w')
    ∧ (presentCookie (req_refresh_token request) = None → w' = w).
Proof.
  unfold authController.logout.
  destruct (presentCookie (req_refresh_token request)) as [t|].
  - destruct (logout_total t w) as [w' Hlogout]. exists w'. run Hlogout.
    unfold ret, reply_send, clearAuthCookies, reply_clearCookie; simpl.
    rewrite <- app_assoc. by split.
  - exists w. unfold bind, ret, reply_send, clearAuthCookies, reply_clearCookie; simpl.
    rewrite <- app_assoc. by split.
Qed.

(** X20.  The [refresh] endpoint reports a missing cookie itself.  Without
    a refresh cookie, or with an empty one, it throws the Unauthorized
    error [MISSING_REFRESH_TOKEN] before any store call; and that code
    means just that: with a cookie, no application error of the endpoint
    carries it. *)
Theorem controller_refresh_missing_cookie (request : Request) (reply : Reply)
    (w : World) :
  (presentCookie (req_refresh_token request) = None →
   authController.refresh request reply w
   = (Throw (AppError "UnauthorizedError" "MISSING_REFRESH_TOKEN"
               "Refresh token not provided" 401), w))
  ∧ (∀ (name message : string) (statusCode : Z) (w' : World),
       authController.refresh request reply w
       = (Throw (AppError name "MISSING_REFRESH_TOKEN" message statusCode), w') →
       req_refresh_token request = None ∨ req_refresh_token request = Some "").
Proof.
  unfold authController.refresh, presentCookie. split.
  - by intros ->.
  - intros name message statusCode w'.
    destruct (req_refresh_token request) as [t|]; [|by left].
    case_bool_decide; [subst; by right|].
    intros Hthrow. exfalso. revert Hthrow. unfold bind.
    destruct (refresh t w) as [[tokens|e'] w1] eqn:Hrefresh; [done|].
    intros [= -> ->].
    destruct (refresh_throws t _ _ _ Hrefresh) as [[]|(message' & code & Heq & Hc)].
    injection Heq as _ <- _ _. by destruct Hc.
Qed.


Lemma errorHandler_store_failure (e : Error) (detail : string) :
  store_failure e → errorHandler (asHandled e detail) = internalError.
Proof. by destruct e. Qed.

Lemma throws_only_controller {A B : Type} (φ : Error → Prop) (m : M A) (k : A → M B) :
  throws_only φ m → (∀ a, throws_only (fun _ => False) (k a)) →
  throws_only φ (bind m k).
Proof.
  intros Hm Hk. apply throws_only_bind; [done|]. intros a.
  eapply throws_only_weaken; [|apply Hk]. done.
Qed.

End controller_props.

(** ** More on [login] *)

Section login_more.
Context `{!Runtime}.

(** X23.  What a successful [login] leaves behind, for a request that
    runs alone on a store whose counters are not negative.  The account
    has no failed attempts and no lock; its stored hash is the modern
    hash of the password if the old one was a legacy hash, and is
    unchanged otherwise; no other account has changed.  The refresh token
    returned is in the store, owned by the account, and a session of the
    account with the device and address of the request was created that
    expires with the token. *)
Theorem login_success_effect (input : LoginInput) (deviceInfo ipAddress : option string)
    (s s' : State) (r : AuthResult) :
  (∀ (id : string) (u : User), users s !! id = Some u → 0 ≤ u_failedLoginAttempts u) →
  login input deviceInfo ipAddress (mkWorld s []) = (Ok r, mkWorld s' []) →
  ∃ (id : string) (u u' : User) (token : RefreshToken) (sid : string)
    (session : Session),
    Prisma.findFirst (Prisma.where_email (li_email input)) (users s) = Some (id, u)
    ∧ users s' !! id = Some u'
    ∧ u_failedLoginAttempts u' = 0
    ∧ u_lockedUntil u' = None
    ∧ u_password u'
      = (if isBcryptHash (u_password u)
         then argon2_hash ARGON2_OPTIONS (li_password input) (entropy s)
         else u_password u)
    ∧ (∀ id' : string, id' ≠ id → users s' !! id' = users s !! id')
    ∧ refreshTokens s' !! refreshToken r = Some token
    ∧ rt_userId token = id
    ∧ sessions s' !! sid = Some session
    ∧ s_userId session = id
    ∧ s_expiresAt session = rt_expiresAt token
    ∧ s_deviceInfo session = deviceInfo
    ∧ s_ipAddress session = ipAddress.
Proof.
  intros Hnonneg Hok.
  destruct (login_ok_verified _ _ _ _ _ _ Hok)
    as (w1 & [id u] & H1 & Hfind & Hactive & Hlocked & Hvalid).
  rewrite arrive_nil in H1. injection H1 as <-. simpl in *.
  pose proof (findFirst_Some _ _ _ Hfind) as [Hrow _]. simpl in Hrow.
  revert Hok. unfold login.
  run (findUserByEmail_arrive (li_email input) _ _ (arrive_nil s)).
  rewrite Hfind. simpl. rewrite Hactive. simpl.
  unfold bind at 1, Date_now at 1. simpl. rewrite Hlocked, Hvalid. simpl.
  (* the reset *)
  assert (Hreset : ∃ (s1 : State) (u1 : User),
    (if bool_decide (0 < u_failedLoginAttempts u) || bool_decide (is_Some (u_lockedUntil u))
     then authRepo.resetFailedAttempts id else ret tt) (mkWorld s [])
    = (Ok tt, mkWorld s1 [])
    ∧ users s1 = <[id := u1]> (users s)
    ∧ u_failedLoginAttempts u1 = 0 ∧ u_lockedUntil u1 = None
    ∧ u_password u1 = u_password u
    ∧ refreshTokens s1 = refreshTokens s ∧ sessions s1 = sessions s
    ∧ entropy s1 = entropy s ∧ clock s1 = clock s ∧ app s1 = app s).
  { destruct (bool_decide (0 < u_failedLoginAttempts u)
              || bool_decide (is_Some (u_lockedUntil u))) eqn:Hneeded.
    - eexists _, _. split.
      { unfold authRepo.resetFailedAttempts. apply (user_update_quiet id _ s u Hrow). }
      simpl. by repeat split.
    - apply orb_false_iff in Hneeded as [Hcount Hlock].
      apply bool_decide_eq_false in Hcount, Hlock.
      exists s, u. split; [done|]. rewrite insert_id by done.
      specialize (Hnonneg id u Hrow).
      repeat split; try done; [lia|].
      destruct (u_lockedUntil u); [|done]. destruct Hlock. by eexists. }
  destruct Hreset as (s1 & u1 & Hstep1 & Husers1 & Hcount1 & Hlock1 & Hpass1
                      & Htokens1 & Hsessions1 & Hentropy1 & Hclock1 & Happ1).
  run Hstep1.
  (* the rehash *)
  assert (Hrehash : ∃ (s2 : State) (u2 : User),
    (if needsRehash (verifyPassword (li_password input) (u_password u))
     then (newHash <- hashPassword (li_password input) ;;
           authRepo.updateUserPassword id newHash)
     else ret tt) (mkWorld s1 [])
    = (Ok tt, mkWorld s2 [])
    ∧ users s2 = <[id := u2]> (users s)
    ∧ u_failedLoginAttempts u2 = 0 ∧ u_lockedUntil u2 = None
    ∧ u_password u2
      = (if isBcryptHash (u_password u)
         then argon2_hash ARGON2_OPTIONS (li_password input) (entropy s)
         else u_password u)
    ∧ refreshTokens s2 = refreshTokens s ∧ sessions s2 = sessions s
    ∧ clock s2 = clock s ∧ app s2 = app s).
  { revert Hvalid. unfold verifyPassword.
    destruct (isBcryptHash (u_password u)) eqn:Hlegacy; simpl.
    - intros ->. unfold bind at 1, hashPassword at 1. simpl.
      unfold authRepo.updateUserPassword.
      erewrite user_update_quiet
        by (simpl; rewrite Husers1; apply lookup_insert_eq).
      eexists _, _. split; [reflexivity|]. simpl.
      rewrite Husers1, insert_insert_eq, Hentropy1. by repeat split.
    - intros _. exists s1, u1. by repeat split. }
  destruct Hrehash as (s2 & u2 & Hstep2 & Husers2 & Hcount2 & Hlock2 & Hpass2
                       & Htokens2 & Hsessions2 & Hclock2 & Happ2).
  run Hstep2.
  unfold bind at 1, signAccessToken at 1. simpl.
  destruct (app s2); [|done].
  unfold bind at 1, generateRefreshToken at 1. simpl.
  unfold getRefreshTokenExpiresAt, bind at 1, bind at 1, Date_now at 1, ret at 1.
  simpl.
  unfold authRepo.createRefreshToken, sessionRepository.createSession.
  erewrite (bind_eq _ _ _ _ (prisma_quiet _ _)).
  unfold Prisma.refreshToken_create at 1 2. simpl.
  destruct (refreshTokens s2 !! uuidv4 (entropy s2)) eqn:Hfree; [done|]. simpl.
  erewrite (bind_eq _ _ _ _ (prisma_quiet _ _)).
  unfold Prisma.session_create at 1 2. simpl.
  destruct (sessions s2 !! uuidv4 (S (S (entropy s2)))) eqn:Hfree'; [done|]. simpl.
  unfold ret. intros [= <- <-]. simpl.
  exists id, u, u2. eexists _, _, _.
  split; [done|]. rewrite Husers2.
  split; [apply lookup_insert_eq|].
  do 3 (split; [done|]).
  split; [intros id' Hne; by rewrite lookup_insert_ne|].
  split; [apply lookup_insert_eq|]. split; [done|].
  split; [apply lookup_insert_eq|]. by repeat split.
Qed.
End login_more.

(** ** Which session [logout] deletes *)

Lemma find_sorted_first {A : Type} (R : relation A) (p : A → bool) (l : list A) (m : A) :
  StronglySorted R l → List.find p l = Some m →
  ∀ x : A, x ∈ l → p x = true → x = m ∨ R m x.
Proof.
  induction 1 as [|a l Hl IH Hall]; simpl; [done|].
  destruct (p a) eqn:Hpa.
  - intros [= <-] x Hx _. apply elem_of_cons in Hx as [->|Hx]; [by left|].
    right. rewrite Forall_forall in Hall. by apply Hall.
  - intros Hfind x Hx Hpx. apply elem_of_cons in Hx as [->|Hx]; [congruence|].
    by apply IH.
Qed.

Section logout_more.
Context `{!Runtime}.

(** X24.  The session [logout] deletes, when it runs alone and the token
    is found.  It is a session of the owner that has not expired and was
    created within the tolerance of the token, and of those the most
    recently active: no other such session was active later.  If there
    is such a session, one is deleted; an expired session is never
    deleted by [logout]. *)
Theorem logout_deletes_most_recent_match (t : string) (s : State)
    (stored : RefreshToken) :
  refreshTokens s !! t = Some stored →
  let candidate (id : string) (row : Session) : Prop :=
    sessions s !! id = Some row
    ∧ s_userId row = rt_userId stored
    ∧ clock s < s_expiresAt row
    ∧ Z.abs (s_createdAt row - rt_createdAt stored) < 5000 in
  ∃ s' : State,
    logout t (mkWorld s []) = (Ok tt, mkWorld s' [])
    ∧ (∀ (id : string) (row : Session),
         sessions s !! id = Some row → sessions s' !! id = None →
         candidate id row
         ∧ ∀ (id' : string) (row' : Session),
             candidate id' row' → s_lastActiveAt row' ≤ s_lastActiveAt row)
    ∧ (∀ (id : string) (row : Session),
         candidate id row →
         ∃ (id' : string) (row' : Session),
           sessions s !! id' = Some row' ∧ sessions s' !! id' = None).
Proof.
  intros Hstored candidate.
  exists (logout_effect t s). split; [apply logout_quiet|].
  unfold logout_effect. rewrite Hstored.
  destruct (List.find _ _) as [m|] eqn:Hfind; simpl.
  - pose proof Hfind as Hm.
    apply find_some in Hm as [Hin Hwithin].
    apply list_elem_of_In, activeSessions_elem in Hin as (Hrow & Howner & Hlive).
    unfold withinTolerance in Hwithin. apply bool_decide_eq_true in Hwithin.
    split.
    + intros id row Hbefore Hafter.
      destruct (decide (id = m.1)) as [->|Hne].
      2: { rewrite lookup_delete_ne in Hafter by done. congruence. }
      rewrite Hrow in Hbefore. injection Hbefore as <-.
      split; [done|].
      intros id' row' (Hrow' & Howner' & Hlive' & Hwithin').
      destruct (find_sorted_first _ _ _ _
                  (activeSessions_sorted (rt_userId stored) (clock s) (sessions s))
                  Hfind (id', row')) as [Heq|Hle].
      * by apply activeSessions_elem.
      * unfold withinTolerance. by apply bool_decide_eq_true_2.
      * rewrite <- Heq. simpl. lia.
      * exact Hle.
    + intros _ _ _. exists m.1, m.2. split; [done|]. apply lookup_delete_eq.
  - split.
    + intros id row Hbefore Hafter. congruence.
    + intros id row (Hrow & Howner & Hlive & Hwithin). exfalso.
      assert (Hin : In (id, row)
                      (Prisma.activeSessions (rt_userId stored) (clock s) (sessions s)))
        by (by apply list_elem_of_In, activeSessions_elem).
      apply (find_none _ _ Hfind) in Hin. unfold withinTolerance in Hin.
      simpl in Hin. by rewrite bool_decide_eq_true_2 in Hin.
Qed.
End logout_more.

(** ** Deleting a refresh token, and the object of a user *)

Section repo_more.
Context `{!Runtime}.

(** X25.  [deleteRefreshToken] treats a token that is not there as
    deleted: when the store answers, the call returns whether the row
    existed or not, afterwards the row is not there and every other row
    is as the store had it, so a second call changes nothing.  What it
    does not swallow is a store that cannot be reached: that error is
    thrown on. *)
Theorem deleteRefreshToken_idempotent (t : string) (w : World) :
  match arrive w with
  | Some w1 =>
      ∃ w' : World,
        authRepo.deleteRefreshToken t w = (Ok tt, w')
        ∧ refreshTokens (st w') !! t = None
        ∧ (∀ t' : string, t' ≠ t →
             refreshTokens (st w') !! t' = refreshTokens (st w1) !! t')
        ∧ users (st w') = users (st w1) ∧ sessions (st w') = sessions (st w1)
        ∧ (sched w' = [] → authRepo.deleteRefreshToken t w' = (Ok tt, w'))
  | None =>
      ∃ (msg : string) (w' : World),
        authRepo.deleteRefreshToken t w = (Throw (JsError msg), w')
  end.
Proof.
  destruct (arrive w) as [w1|] eqn:Ha.
  - eexists. split; [apply (deleteRefreshToken_arrive t _ _ Ha)|]. simpl.
    split; [apply lookup_delete_eq|].
    split; [intros t' Hne; by apply lookup_delete_ne|].
    split; [done|]. split; [done|].
    intros Hquiet. rewrite Hquiet.
    rewrite (deleteRefreshToken_arrive t _ _ (arrive_nil _)). simpl.
    do 2 f_equal. unfold with_refreshTokens; simpl. by rewrite delete_delete_eq.
  - destruct (deleteRefreshToken_unreached t w Ha) as [msg Hq]. by eexists _, _.
Qed.

(** X26.  [sanitizeUser] removes the password and nothing else: the
    object it builds has every other property of the user row,
    [failedLoginAttempts], [lockedUntil] and [deletedAt] among them, with
    the value of the row, except that the two timestamps [createdAt] and
    [updatedAt] are given as ISO strings. *)
Theorem sanitizeUser_keeps_rest (user : string * User) (key : string) :
  sanitizeUser user !! key
  = if bool_decide (key = "password") then None
    else if bool_decide (key = "createdAt")
    then Some (JStr (toISOString (u_createdAt user.2)))
    else if bool_decide (key = "updatedAt")
    then Some (JStr (toISOString (u_updatedAt user.2)))
    else userObject user !! key.
Proof.
  unfold sanitizeUser.
  destruct (decide (key = "updatedAt")) as [->|Hu].
  { by rewrite lookup_insert_eq. }
  rewrite lookup_insert_ne by done.
  destruct (decide (key = "createdAt")) as [->|Hc].
  { by rewrite lookup_insert_eq. }
  rewrite lookup_insert_ne by done.
  rewrite (bool_decide_eq_false_2 (key = "createdAt")) by done.
  rewrite (bool_decide_eq_false_2 (key = "updatedAt")) by done.
  destruct (decide (key = "avatarUrl")) as [->|Ha].
  { by rewrite lookup_insert_eq. }
  rewrite lookup_insert_ne by done.
  rewrite !lookup_delete_ne by done.
  destruct (decide (key = "password")) as [->|Hp].
  { by rewrite lookup_delete_eq. }
  rewrite lookup_delete_ne by done.
  by rewrite bool_decide_eq_false_2.
Qed.
End repo_more.

(** ** More on [register] *)

Section register_more.
Context `{!Runtime}.

(** X27.  What a successful [register] leaves behind, for a request that
    runs alone.  One user was added and no other changed: it has the
    email and the names of the input and the modern hash of the password,
    salted with what the random source gave.  The object returned has the
    identifier of the new user.  The refresh token returned is in the
    store, owned by the new user, and a session of the user with the
    device and address of the request was created that expires with the
    token. *)
Theorem register_success_effect (input : RegisterInput)
    (deviceInfo ipAddress : option string) (s s' : State) (r : AuthResult) :
  register input deviceInfo ipAddress (mkWorld s []) = (Ok r, mkWorld s' []) →
  ∃ (id : string) (u : User) (token : RefreshToken) (sid : string) (session : Session),
    users s !! id = None
    ∧ users s' = <[id := u]> (users s)
    ∧ u_email u = ri_email input
    ∧ u_firstName u = ri_firstName input
    ∧ u_lastName u = ri_lastName input
    ∧ u_password u = argon2_hash ARGON2_OPTIONS (ri_password input) (entropy s)
    ∧ user r !! "id" = Some (JStr id)
    ∧ refreshTokens s' !! refreshToken r = Some token
    ∧ rt_userId token = id
    ∧ sessions s' !! sid = Some session
    ∧ s_userId session = id
    ∧ s_expiresAt session = rt_expiresAt token
    ∧ s_deviceInfo session = deviceInfo
    ∧ s_ipAddress session = ipAddress.
Proof.
  unfold register.
  run (findUserByEmail_arrive (ri_email input) _ _ (arrive_nil s)).
  destruct (Prisma.findFirst _ _) as [existing|]; [done|].
  unfold bind at 1, hashPassword at 1. simpl.
  unfold authRepo.createUser, authRepo.createRefreshToken,
    sessionRepository.createSession.
  erewrite (bind_eq _ _ _ _ (prisma_quiet _ _)).
  unfold Prisma.user_create at 1 2. simpl.
  case_bool_decide as Hid; simpl; [done|].
  case_bool_decide as Hemail; simpl; [done|].
  unfold bind at 1, signAccessToken at 1. simpl.
  destruct (app s); [|done].
  unfold bind at 1, generateRefreshToken at 1. simpl.
  unfold getRefreshTokenExpiresAt, bind at 1, bind at 1, Date_now at 1, ret at 1.
  simpl.
  erewrite (bind_eq _ _ _ _ (prisma_quiet _ _)).
  unfold Prisma.refreshToken_create at 1 2. simpl.
  destruct (refreshTokens s !! uuidv4 (S (S (entropy s)))); [done|]. simpl.
  erewrite (bind_eq _ _ _ _ (prisma_quiet _ _)).
  unfold Prisma.session_create at 1 2. simpl.
  destruct (sessions s !! uuidv4 (S (S (S (S (entropy s)))))); [done|]. simpl.
  unfold ret. destruct r as [ru ra rt]. intros Heq.
  injection Heq as Hu Ha Ht Hs'. subst ra rt s'. simpl.
  eexists _, _, _, _, _.
  split.
  { destruct (users s !! uuidv4 (S (entropy s))) eqn:Hrow; [|done].
    destruct Hid. by eexists. }
  split; [reflexivity|]. simpl.
  do 4 (split; [done|]).
  split; [rewrite <- Hu; apply sanitizeUser_id|].
  split; [apply lookup_insert_eq|]. split; [done|].
  split; [apply lookup_insert_eq|]. done.
Qed.
End register_more.

(** * The properties at work on the demo runtime *)

#[local] Existing Instance demo.

Lemma getLockoutDuration_policy_witness :
  5 ≤ 10 ∧ duration_le (getLockoutDuration 5) (getLockoutDuration 10).
Proof.
  split; [lia|]. apply (proj1 getLockoutDuration_policy 5 10). lia.
Defined.

Lemma verifyPassword_rehash_witness :
  isBcryptHash "$2a$Passw0rd" = true
  ∧ bcrypt_compare "Passw0rd" "$2a$Passw0rd" = true
  ∧ verifyPassword "Passw0rd" "$2a$Passw0rd" = mkVerifyResult true true.
Proof.
  split; [reflexivity|]. split; [reflexivity|].
  apply (proj1 (proj2 verifyPassword_rehash)); reflexivity.
Defined.

Lemma logout_never_throws_witness :
  arrive (mkWorld demo_state []) = Some (mkWorld demo_state [])
  ∧ refreshTokens demo_state !! "token-9" = None
  ∧ authRepo.deleteRefreshToken "token-9" (mkWorld demo_state [])
    = (Ok tt, mkWorld demo_state []).
Proof.
  split; [reflexivity|]. split; [reflexivity|].
  apply (proj1 (proj2 (proj2 logout_never_throws))); reflexivity.
Defined.

Lemma logout_deletes_matching_session_witness :
  calm (mkWorld demo_state [])
  ∧ refreshTokens demo_state !! "token-1" = Some demo_token
  ∧ (sessions (st (logout "token-1" (mkWorld demo_state [])).2) = sessions demo_state
     ∨ ∃ (id : string) (row : Session),
         sessions demo_state !! id = Some row
         ∧ s_userId row = rt_userId demo_token
         ∧ Z.abs (s_createdAt row - rt_createdAt demo_token) < 5000
         ∧ sessions (st (logout "token-1" (mkWorld demo_state [])).2)
           = delete id (sessions demo_state)).
Proof.
  split; [apply calm_nil|]. split; [reflexivity|].
  apply (logout_deletes_matching_session "token-1" (mkWorld demo_state []) demo_token);
    [apply calm_nil | reflexivity].
Defined.

Lemma refresh_rotation_all_or_nothing_witness :
  refreshTokens demo_state !! "token-1" = Some demo_token
  ∧ refreshTokens (interfere (consume "token-1") (next_entropy demo_state))
      !! "token-1" = None
  ∧ refresh "token-1"
      (mkWorld demo_state [undisturbed; undisturbed; consume "token-1"])
    = (Throw (UnauthorizedError "Refresh token already used" "INVALID_REFRESH_TOKEN"),
       mkWorld (interfere (consume "token-1") (next_entropy demo_state)) []).
Proof.
  split; [reflexivity|]. split; [reflexivity|].
  apply (proj2 (proj2 refresh_rotation_all_or_nothing) "token-1"
           (mkWorld demo_state [undisturbed; undisturbed; consume "token-1"])
           (mkWorld demo_state [undisturbed; consume "token-1"])
           (mkWorld demo_state [consume "token-1"])
           (mkWorld (interfere (consume "token-1") (next_entropy demo_state)) [])
           demo_token demo_user);
    try reflexivity.
  simpl. lia.
Defined.

Lemma refresh_failures_distinguishable_witness :
  refreshTokens demo_state !! "token-0" = Some demo_expired_token
  ∧ rt_expiresAt demo_expired_token < clock demo_state
  ∧ ∃ w' : World,
      refresh "token-0" (mkWorld demo_state [])
      = (Throw (UnauthorizedError "Refresh token expired" "REFRESH_TOKEN_EXPIRED"), w')
      ∧ refreshTokens (st w') = delete "token-0" (refreshTokens demo_state)
      ∧ refreshTokens (st w') !! "token-0" = None.
Proof.
  split; [reflexivity|]. split; [simpl; lia|].
  apply (proj1 (proj2 refresh_failures_distinguishable) "token-0"
           (mkWorld demo_state []) (mkWorld demo_state []) (mkWorld demo_state [])
           demo_expired_token);
    reflexivity.
Defined.

Lemma register_conflict_witness :
  users demo_state !! "user-1" = Some demo_user
  ∧ register (mkRegisterInput "a@x.com" "Passw0rd" "A" "B") None None
      (mkWorld demo_state [])
    = (Throw (ConflictError "Email already registered" "EMAIL_ALREADY_EXISTS"),
       mkWorld demo_state []).
Proof.
  split; [reflexivity|].
  apply (proj1 (proj2 (register_conflict (mkRegisterInput "a@x.com" "Passw0rd" "A" "B")
                         None None (mkWorld demo_state [])))).
  - reflexivity.
  - exists "user-1", demo_user. repeat split; reflexivity.
Defined.

Lemma login_failures_indistinguishable_witness :
  Prisma.findFirst (Prisma.where_email "a@x.com") (users demo_state)
  = Some ("user-1", demo_user)
  ∧ valid (verifyPassword "letmein" (u_password demo_user)) = false
  ∧ ∃ w' : World,
      login (mkLoginInput "a@x.com" "letmein") None None (mkWorld demo_state [])
      = (Throw (AppError "UnauthorizedError" "INVALID_CREDENTIALS"
                  "Invalid email or password" 401), w').
Proof.
  split; [reflexivity|]. split; [reflexivity|].
  destruct (login_failures_indistinguishable (mkLoginInput "a@x.com" "letmein")
              None None (mkWorld demo_state []) (mkWorld demo_state []))
    as (_ & _ & Hcases).
  destruct (Hcases eq_refl) as (_ & _ & _ & _ & Hwrong).
  apply (Hwrong "user-1" demo_user); reflexivity.
Defined.

Lemma counter_reset_only_on_verified_login_witness :
  u_lockedUntil demo_user = Some 10
  ∧ 10 ≤ clock demo_state
  ∧ 5 ≤ u_failedLoginAttempts demo_user
  ∧ ∃ (s' : State) (u' : User) (previous renewed : Z),
      login (mkLoginInput "a@x.com" "letmein") None None (mkWorld demo_state [])
      = (Throw invalidCredentials, mkWorld s' [])
      ∧ users s' !! "user-1" = Some u'
      ∧ u_failedLoginAttempts u' = u_failedLoginAttempts demo_user + 1
      ∧ getLockoutDuration (u_failedLoginAttempts demo_user) = Some previous
      ∧ getLockoutDuration (u_failedLoginAttempts demo_user + 1) = Some renewed
      ∧ previous ≤ renewed
      ∧ u_lockedUntil u' = Some (clock demo_state + renewed).
Proof.
  split; [reflexivity|]. split; [simpl; lia|]. split; [simpl; lia|].
  apply (proj2 (proj2 (proj2 (proj2 (proj2 (proj2 counter_reset_only_on_verified_login)))))
           (mkLoginInput "a@x.com" "letmein") None None demo_state "user-1" demo_user 10);
    try reflexivity; simpl; lia.
Defined.

Lemma demo_uuid_inj (n m : nat) : demo_uuid n = demo_uuid m → n = m.
Proof.
  unfold demo_uuid. intros Heq. apply String.app_inj in Heq.
  by apply pretty_nat_inj in Heq.
Qed.

Lemma register_then_login_witness :
  app demo_empty = true
  ∧ ∃ (r1 r2 : AuthResult) (s1 s2 : State),
      register (mkRegisterInput "a@x.com" "Passw0rd" "A" "B") None None
        (mkWorld demo_empty [])
      = (Ok r1, mkWorld s1 [])
      ∧ login (mkLoginInput "a@x.com" "Passw0rd") None None (mkWorld s1 [])
        = (Ok r2, mkWorld s2 [])
      ∧ user r1 !! "password" = None
      ∧ user r2 !! "password" = None
      ∧ user r1 !! "email" = Some (JStr "a@x.com")
      ∧ user r1 !! "role" = Some (JStr "USER")
      ∧ user r2 = user r1.
Proof.
  split; [reflexivity|].
  apply (proj2 (proj2 (proj2 register_then_login))
           (mkRegisterInput "a@x.com" "Passw0rd" "A" "B") None None None None demo_empty).
  - reflexivity.
  - intros id u Hrow. simpl in Hrow. by rewrite lookup_empty in Hrow.
  - apply demo_uuid_inj.
  - intros n _. simpl. by rewrite !lookup_empty.
  - intros salt. split; [reflexivity|].
    apply prefix_append. by exists (pretty salt).
Defined.

#[local] Existing Instance demo_deployment.

Lemma parseDurationMs_decodes_witness :
  [0; 7]%nat ≠ [] ∧ digits [0; 7]%nat
  ∧ multipliers "d"%char = Some (24 * 60 * 60 * 1000)
  ∧ decimal [0; 7]%nat * (24 * 60 * 60 * 1000) ≤ MAX_SAFE_INTEGER
  ∧ parseDurationMs "07d" 0 = 7 * (24 * 60 * 60 * 1000).
Proof.
  split; [done|]. split; [repeat constructor; lia|]. split; [reflexivity|].
  split; [by vm_compute|].
  apply (parseDurationMs_decodes [0; 7]%nat "d"%char (24 * 60 * 60 * 1000) 0);
    [done | repeat constructor; lia | reflexivity | by vm_compute].
Defined.

Lemma refresh_cookie_ends_with_token_witness :
  REFRESH_TOKEN_MAX_AGE_MS ≤ MAX_SAFE_INTEGER
  ∧ ∃ maxAge : Z,
      last (r_cookies (setAuthCookies freshReply "jwt" "uuid-7"))
      = Some (SetCookie "refresh_token" "uuid-7"
                (mkCookieOptions true isProduction "strict" "/api/v1/auth" (Some maxAge)))
      ∧ getRefreshTokenExpiresAt (mkWorld demo_state [])
        = (Ok (clock demo_state + 1000 * maxAge), mkWorld demo_state []).
Proof.
  split; [by vm_compute|].
  apply (refresh_cookie_ends_with_token freshReply "jwt" "uuid-7" (mkWorld demo_state [])).
  by vm_compute.
Defined.

Lemma getUserSessions_lists_witness :
  arrive (mkWorld demo_state [undisturbed]) = Some (mkWorld demo_state [])
  ∧ ∃ rows : list (string * Session),
      getUserSessions "user-1" (mkWorld demo_state [undisturbed])
      = (Ok (map sessionInfo rows), mkWorld demo_state [])
      ∧ (∀ row : string * Session,
           row ∈ rows
           ↔ sessions demo_state !! row.1 = Some row.2
             ∧ s_userId row.2 = "user-1"
             ∧ clock demo_state < s_expiresAt row.2)
      ∧ NoDup (map si_id (map sessionInfo rows))
      ∧ StronglySorted (fun a b => s_lastActiveAt b.2 ≤ s_lastActiveAt a.2) rows.
Proof.
  split; [reflexivity|].
  apply (getUserSessions_lists "user-1" (mkWorld demo_state [undisturbed])
           (mkWorld demo_state [])).
  reflexivity.
Defined.

Lemma logoutAllSessions_then_refresh_witness :
  refreshTokens demo_state !! "token-1" = Some demo_token
  ∧ rt_userId demo_token = "user-1"
  ∧ ∃ (count : nat) (s' : State),
      logoutAllSessions "user-1" (mkWorld demo_state []) = (Ok count, mkWorld s' [])
      ∧ getUserSessions "user-1" (mkWorld s' []) = (Ok [], mkWorld s' [])
      ∧ refresh "token-1" (mkWorld s' [])
        = (Throw (UnauthorizedError "Invalid refresh token" "INVALID_REFRESH_TOKEN"),
           mkWorld s' []).
Proof.
  split; [reflexivity|]. split; [reflexivity|].
  apply (logoutAllSessions_then_refresh "user-1" "token-1" demo_state demo_token);
    reflexivity.
Defined.

Lemma logoutAllSessions_not_atomic_witness :
  fault undisturbed = None
  ∧ fault unreachable = Some "connection lost"
  ∧ ∃ s' : State,
      logoutAllSessions "user-1" (mkWorld demo_state [undisturbed; unreachable])
      = (Throw (JsError "connection lost"), mkWorld s' [])
      ∧ (∀ (id : string) (row : Session),
           sessions s' !! id = Some row
           ↔ sessions demo_state !! id = Some row ∧ s_userId row ≠ "user-1")
      ∧ refreshTokens s' = refreshTokens demo_state.
Proof.
  split; [reflexivity|]. split; [reflexivity|].
  apply (logoutAllSessions_not_atomic "user-1" demo_state undisturbed unreachable []
           "connection lost");
    reflexivity.
Defined.

Lemma getCurrentUser_found_or_not_witness :
  arrive (mkWorld demo_disabled []) = Some (mkWorld demo_disabled [])
  ∧ ∃ obj : gmap string JsValue,
      getCurrentUser "user-1" (mkWorld demo_disabled [])
      = (Ok obj, mkWorld demo_disabled [])
      ∧ obj !! "id" = Some (JStr "user-1")
      ∧ obj !! "email" = Some (JStr "a@x.com")
      ∧ obj !! "isActive" = Some (JBool false)
      ∧ obj !! "password" = None.
Proof.
  split; [reflexivity|].
  exact (getCurrentUser_found_or_not "user-1" (mkWorld demo_disabled [])
           (mkWorld demo_disabled []) eq_refl).
Defined.

Lemma refresh_single_use_witness :
  ∃ (tokens : TokenPair) (s' : State),
    refresh "token-1" (mkWorld demo_state []) = (Ok tokens, mkWorld s' [])
    ∧ tp_refreshToken tokens ≠ "token-1"
    ∧ refreshTokens s' !! "token-1" = None
    ∧ (∃ (w1 : World) (old new : RefreshToken),
         arrive (mkWorld demo_state []) = Some w1
         ∧ refreshTokens (st w1) !! "token-1" = Some old
         ∧ refreshTokens s' !! tp_refreshToken tokens = Some new
         ∧ rt_userId new = rt_userId old)
    ∧ refresh "token-1" (mkWorld s' [])
      = (Throw (UnauthorizedError "Invalid refresh token" "INVALID_REFRESH_TOKEN"),
         mkWorld s' []).
Proof.
  eexists _, _. split; [reflexivity|]. split; [done|].
  apply (refresh_single_use "token-1" (mkWorld demo_state [])); [reflexivity|done].
Defined.

Lemma refresh_owner_gone_or_disabled_witness :
  refreshTokens demo_disabled !! "token-1" = Some demo_token
  ∧ ¬ rt_expiresAt demo_token < clock demo_disabled
  ∧ (∀ owner : User,
       users demo_disabled !! rt_userId demo_token = Some owner →
       u_deletedAt owner ≠ None ∨ u_isActive owner = false)
  ∧ refresh "token-1" (mkWorld demo_disabled [])
    = (Throw (AppError "UnauthorizedError" "INVALID_REFRESH_TOKEN"
                "User not found or disabled" 401), mkWorld demo_disabled []).
Proof.
  assert (Hoff : ∀ owner : User,
            users demo_disabled !! rt_userId demo_token = Some owner →
            u_deletedAt owner ≠ None ∨ u_isActive owner = false).
  { intros owner Hrow. vm_compute in Hrow. injection Hrow as <-. by right. }
  split; [reflexivity|]. split; [simpl; lia|]. split; [exact Hoff|].
  apply (refresh_owner_gone_or_disabled "token-1" (mkWorld demo_disabled [])
           (mkWorld demo_disabled []) (mkWorld demo_disabled []) demo_token);
    [reflexivity | reflexivity | simpl; lia | reflexivity | exact Hoff].
Defined.

Lemma cleanup_removes_what_refresh_refuses_witness :
  refreshTokens demo_state !! "token-0" = Some demo_expired_token
  ∧ ∃ (log : option LogRecord) (s' : State),
      cleanupTick (mkWorld demo_state []) = (Ok log, mkWorld s' [])
      ∧ (refreshTokens s' !! "token-0" = None
         ↔ ∃ w' : World,
             refresh "token-0" (mkWorld demo_state [])
             = (Throw (UnauthorizedError "Refresh token expired" "REFRESH_TOKEN_EXPIRED"),
                w')).
Proof.
  split; [reflexivity|].
  apply (cleanup_removes_what_refresh_refuses "token-0" demo_state demo_expired_token).
  reflexivity.
Defined.

Lemma login_success_effect_witness :
  (∀ (id : string) (u : User),
     users demo_state !! id = Some u → 0 ≤ u_failedLoginAttempts u)
  ∧ ∃ (r : AuthResult) (s' : State),
      login (mkLoginInput "a@x.com" "Passw0rd") (Some "browser") (Some "10.0.0.1")
        (mkWorld demo_state [])
      = (Ok r, mkWorld s' [])
      ∧ ∃ (id : string) (u u' : User) (token : RefreshToken) (sid : string)
          (session : Session),
          Prisma.findFirst (Prisma.where_email "a@x.com") (users demo_state)
          = Some (id, u)
          ∧ users s' !! id = Some u'
          ∧ u_failedLoginAttempts u' = 0
          ∧ u_lockedUntil u' = None
          ∧ u_password u'
            = (if isBcryptHash (u_password u)
               then argon2_hash ARGON2_OPTIONS "Passw0rd" (entropy demo_state)
               else u_password u)
          ∧ (∀ id' : string, id' ≠ id → users s' !! id' = users demo_state !! id')
          ∧ refreshTokens s' !! refreshToken r = Some token
          ∧ rt_userId token = id
          ∧ sessions s' !! sid = Some session
          ∧ s_userId session = id
          ∧ s_expiresAt session = rt_expiresAt token
          ∧ s_deviceInfo session = Some "browser"
          ∧ s_ipAddress session = Some "10.0.0.1".
Proof.
  assert (Hcounters : ∀ (id : string) (u : User),
            users demo_state !! id = Some u → 0 ≤ u_failedLoginAttempts u).
  { intros id u Hrow. unfold demo_state in Hrow. simpl in Hrow.
    apply lookup_singleton_Some in Hrow as [_ <-]. simpl. lia. }
  split; [exact Hcounters|].
  eexists _, _. split; [vm_compute; reflexivity|].
  apply (login_success_effect (mkLoginInput "a@x.com" "Passw0rd") (Some "browser")
           (Some "10.0.0.1") demo_state);
    [exact Hcounters | vm_compute; reflexivity].
Defined.

Lemma logout_deletes_most_recent_match_witness :
  refreshTokens demo_state !! "token-1" = Some demo_token
  ∧ ∃ s' : State,
      logout "token-1" (mkWorld demo_state []) = (Ok tt, mkWorld s' [])
      ∧ (∀ (id : string) (row : Session),
           sessions demo_state !! id = Some row → sessions s' !! id = None →
           (sessions demo_state !! id = Some row
            ∧ s_userId row = rt_userId demo_token
            ∧ clock demo_state < s_expiresAt row
            ∧ Z.abs (s_createdAt row - rt_createdAt demo_token) < 5000)
           ∧ ∀ (id' : string) (row' : Session),
               sessions demo_state !! id' = Some row'
               ∧ s_userId row' = rt_userId demo_token
               ∧ clock demo_state < s_expiresAt row'
               ∧ Z.abs (s_createdAt row' - rt_createdAt demo_token) < 5000 →
               s_lastActiveAt row' ≤ s_lastActiveAt row)
      ∧ (∀ (id : string) (row : Session),
           sessions demo_state !! id = Some row
           ∧ s_userId row = rt_userId demo_token
           ∧ clock demo_state < s_expiresAt row
           ∧ Z.abs (s_createdAt row - rt_createdAt demo_token) < 5000 →
           ∃ (id' : string) (row' : Session),
             sessions demo_state !! id' = Some row' ∧ sessions s' !! id' = None).
Proof.
  split; [reflexivity|].
  apply (logout_deletes_most_recent_match "token-1" demo_state demo_token).
  reflexivity.
Defined.

Lemma register_success_effect_witness :
  ∃ (r : AuthResult) (s' : State),
    register (mkRegisterInput "b@x.com" "Passw0rd" "B" "C") (Some "browser")
      (Some "10.0.0.1") (mkWorld demo_state [])
    = (Ok r, mkWorld s' [])
    ∧ ∃ (id : string) (u : User) (token : RefreshToken) (sid : string)
        (session : Session),
        users demo_state !! id = None
        ∧ users s' = <[id := u]> (users demo_state)
        ∧ u_email u = "b@x.com"
        ∧ u_firstName u = "B"
        ∧ u_lastName u = "C"
        ∧ u_password u = argon2_hash ARGON2_OPTIONS "Passw0rd" (entropy demo_state)
        ∧ user r !! "id" = Some (JStr id)
        ∧ refreshTokens s' !! refreshToken r = Some token
        ∧ rt_userId token = id
        ∧ sessions s' !! sid = Some session
        ∧ s_userId session = id
        ∧ s_expiresAt session = rt_expiresAt token
        ∧ s_deviceInfo session = Some "browser"
        ∧ s_ipAddress session = Some "10.0.0.1".
Proof.
  eexists _, _. split; [vm_compute; reflexivity|].
  apply (register_success_effect (mkRegisterInput "b@x.com" "Passw0rd" "B" "C")
           (Some "browser") (Some "10.0.0.1") demo_state).
  vm_compute; reflexivity.
Defined.

(** ** The model at work *)

Example parseDurationMs_seven_days : parseDurationMs "7d" 0 = 7 * 24 * 60 * 60 * 1000.
Proof. reflexivity. Qed.

Example parseDurationMs_fifteen_minutes : parseDurationMs "15m" 0 = 15 * 60 * 1000.
Proof. reflexivity. Qed.

Example parseDurationMs_fallback :
  parseDurationMs "7 days" 42 = 42 ∧ parseDurationMs "d" 42 = 42
  ∧ parseDurationMs "12dd" 42 = 42 ∧ parseDurationMs "" 42 = 42.
Proof. repeat split. Qed.

(** The rest pattern of [sanitizeUser] drops the password and keeps the
    other columns of the row. *)
Example sanitizeUser_demo :
  dom (sanitizeUser ("user-1", demo_user))
  = list_to_set
      [ "id"; "email"; "firstName"; "lastName"; "avatarUrl"; "role"; "isActive";
        "deletedAt"; "failedLoginAttempts"; "lockedUntil"; "createdAt"; "updatedAt" ].
Proof. vm_compute. reflexivity. Qed.

(** Logging out of the demo store removes the token and the session that
    was created 200 ms after it. *)
Example logout_demo :
  logout "token-1" (mkWorld demo_state [])
  = (Ok tt,
     mkWorld (with_sessions (delete "session-1")
                (with_refreshTokens (delete "token-1") demo_state)) []).
Proof. rewrite logout_quiet. reflexivity. Qed.

(** Two refreshes of the same token, one after the other: the second finds
    the token gone. *)
Example refresh_twice_demo :
  let first := refresh "token-1" (mkWorld demo_state []) in
  first.1 = Ok (mkTokenPair "jwt.user-1.USER.15m" "uuid-0")
  ∧ (refresh "token-1" first.2).1
    = Throw (UnauthorizedError "Invalid refresh token" "INVALID_REFRESH_TOKEN").
Proof. vm_compute. split; reflexivity. Qed.
